(** * bitcalm.actions: the action pool and its three kinds of action

    A shallow embedding of [src/bitcalm/actions.py].  The module is Python 2
    code ([__cmp__], [cmp], a [map] and a [filter] that return lists), and it
    is modelled with Python 2's meaning:

    - objects live in a store and are named by their address; two names of
      one object are one address, so mutation through one name is seen
      through the other;
    - [Action] defines [__cmp__] and no [__eq__], so [a == b] on two actions
      is [cmp(a.time, b.time) == 0], with the interpreter's shortcut that an
      object is always equal to itself; [list.remove] and [min] go through
      that comparison;
    - an exception leaves the store as it was when it was raised.

    Instants are whole seconds in [Z]; [timedelta(seconds=n)] is [n]. *)

From stdpp Require Import gmap strings list.
From Stdlib Require Import ZArith Lia Sorted.

(** ** Values *)

(** An object's identity. *)
Abbreviation addr := nat.

(** The underlying callable of an action ([_func]), compared with [==]. *)
Abbreviation Func := string.

(** What a work function hands back, as far as the callers look at it:
    its truth value, and whether it equals [1] or [-1]. *)
Inductive PyVal :=
| PyNone
| PyBool (b : bool)
| PyInt (n : Z).

(** [bool(v)]. *)
Definition truthy (v : PyVal) : bool :=
  match v with
  | PyNone => false
  | PyBool b => b
  | PyInt n => negb (n =? 0)%Z
  end.

(** [v == k] for an integer literal [k]; [True == 1] and [False == 0]. *)
Definition py_eq_int (v : PyVal) (k : Z) : bool :=
  match v with
  | PyNone => false
  | PyBool b => ((if b then 1 else 0) =? k)%Z
  | PyInt n => (n =? k)%Z
  end.

(** The exceptions the module can raise.  [Dangling] is not a Python
    exception: it marks an address that names no object, which a Python
    reference cannot be. *)
Inductive PyErr :=
| ValueError
| TypeError
| AttributeError
| Dangling.

(** The first positional argument of a constructor: a number of seconds, or
    a callable.  The callable is given the number of clock readings made so
    far, which stands for everything it may look at. *)
Inductive NextTime :=
| Period (seconds : Z)
| NextFn (g : nat -> option Z).

(** [callable(nexttime)]. *)
Definition callable_nexttime (n : NextTime) : bool :=
  match n with
  | Period _ => false
  | NextFn _ => true
  end.

(** The bound method stored in [_next]. *)
Inductive NextRule :=
| DefaultNext
| CustomNext (g : nat -> option Z).

Inductive Class :=
| ClsAction
| ClsOneTimeAction
| ClsStepAction.

(** The argument of [ActionPool.get]: a callable is looked up in [_func],
    anything else in [tag]; [ByTag None] is Python's [None]. *)
Inductive Ident :=
| ByFunc (f : Func)
| ByTag (t : option string).

(** [callable(func_or_tag)]. *)
Definition callable_ident (i : Ident) : bool :=
  match i with
  | ByFunc _ => true
  | ByTag _ => false
  end.

(** An entry of [_cancel]: "function, tag or action". *)
Inductive CancelItem :=
| CAction (a : addr)
| CIdent (i : Ident).

(** An entry of [_followers]: an action, or an [ActionSeed] with its [cls],
    its positional arguments [nexttime] and [func], and the keyword arguments
    the constructors pop. *)
#[warnings="-register-all"]
Inductive Follower :=
| FAction (a : addr)
| FSeed (cls : Class) (nexttime : NextTime) (func : Func)
        (kw_tag : option string) (kw_start kw_step : option Z)
        (kw_followers : list Follower) (kw_cancel : list CancelItem).

(** The attributes of an action.  [_followers] and [_cancel] exist on a
    [OneTimeAction] only and [step] on a [StepAction] only; on the other
    classes they hold their defaults and are never read.  [_args] and
    [_kwargs] are only handed to the work and are left out. *)
Record action := Build_action {
  cls : Class;
  tag : option string;
  pool : option addr;
  lastexectime : option Z;
  _func : Func;
  _period : Z;
  _next : NextRule;
  time : option Z;
  _followers : list Follower;
  _cancel : list CancelItem;
  step : Z
}.

Definition set_pool (p : option addr) (x : action) : action :=
  Build_action (cls x) (tag x) p (lastexectime x) (_func x) (_period x)
               (_next x) (time x) (_followers x) (_cancel x) (step x).

Definition set_lastexectime (t : option Z) (x : action) : action :=
  Build_action (cls x) (tag x) (pool x) t (_func x) (_period x)
               (_next x) (time x) (_followers x) (_cancel x) (step x).

Definition set_time (t : option Z) (x : action) : action :=
  Build_action (cls x) (tag x) (pool x) (lastexectime x) (_func x) (_period x)
               (_next x) t (_followers x) (_cancel x) (step x).

Definition set_followers (fs : list Follower) (x : action) : action :=
  Build_action (cls x) (tag x) (pool x) (lastexectime x) (_func x) (_period x)
               (_next x) (time x) fs (_cancel x) (step x).

(** What [log] is told. *)
Inductive LogEvent :=
| Info_perform (f : Func)
| Info_complete (f : Func)
| Info_step_complete (f : Func)
| Error_failed (f : Func).

Definition is_error (e : LogEvent) : bool :=
  match e with
  | Error_failed _ => true
  | _ => false
  end.

(** ** The store *)

(** [objects] holds the actions and [pools] the [_actions] list of every
    [ActionPool]; [ticks] counts the readings of the clock made so far,
    [log] is the log, oldest event first, and [fresh] the next unused
    address. *)
Record World := Build_World {
  objects : gmap nat action;
  pools : gmap nat (list nat);
  ticks : nat;
  log : list LogEvent;
  fresh : nat
}.

(** What the module does not own: the wall clock, as the sequence of values
    [datetime.utcnow()] returns, and the work functions, whose result may
    depend on when they run. *)
Record Env := Build_Env {
  clk : nat -> Z;
  work : Func -> nat -> PyVal
}.

(** ** Computations that read and write the store and may raise *)

Inductive Outcome (A : Type) :=
| Ret (x : A)
| Raise (e : PyErr).
Arguments Ret {A} x.
Arguments Raise {A} e.

Definition M (A : Type) : Type := World -> Outcome A * World.

Definition ret {A} (x : A) : M A := fun w => (Ret x, w).

Definition raise {A} (e : PyErr) : M A := fun w => (Raise e, w).

Definition bind {A B} (m : M A) (k : A -> M B) : M B :=
  fun w =>
    match m w with
    | (Ret x, w') => k x w'
    | (Raise e, w') => (Raise e, w')
    end.

Declare Scope py_scope.
Delimit Scope py_scope with py.
Notation "x <~ m ;; k" := (bind m (fun x => k))
  (at level 100, m at next level, right associativity) : py_scope.
Notation "m ;;; k" := (bind m (fun _ => k))
  (at level 100, right associativity) : py_scope.
Open Scope py_scope.

(** [for x in l: f(x)]. *)
Fixpoint for_each {A} (f : A -> M unit) (l : list A) : M unit :=
  match l with
  | [] => ret tt
  | x :: l' => f x ;;; for_each f l'
  end.

(** [map(f, l)] of Python 2: the list of the results, built left to right. *)
Fixpoint map_m {A B} (f : A -> M B) (l : list A) : M (list B) :=
  match l with
  | [] => ret []
  | x :: l' => y <~ f x ;; ys <~ map_m f l' ;; ret (y :: ys)
  end.

(** [[x for x in l if f(x)]]. *)
Fixpoint filter_m {A} (f : A -> M bool) (l : list A) : M (list A) :=
  match l with
  | [] => ret []
  | x :: l' =>
      b <~ f x ;; r <~ filter_m f l' ;; ret (if b then x :: r else r)
  end.

(** Reading an object, and writing one that exists. *)
Definition deref (a : addr) : M action :=
  fun w =>
    match objects w !! a with
    | Some x => (Ret x, w)
    | None => (Raise Dangling, w)
    end.

Definition update (a : addr) (f : action -> action) : M unit :=
  fun w =>
    match objects w !! a with
    | Some x =>
        (Ret tt, Build_World (<[a := f x]> (objects w)) (pools w) (ticks w)
                             (log w) (fresh w))
    | None => (Raise Dangling, w)
    end.

Definition getattr {A} (a : addr) (f : action -> A) : M A :=
  x <~ deref a ;; ret (f x).

(** The [_actions] list of a pool, read and replaced. *)
Definition members (p : addr) : M (list addr) :=
  fun w =>
    match pools w !! p with
    | Some l => (Ret l, w)
    | None => (Raise Dangling, w)
    end.

Definition set_members (p : addr) (l : list addr) : M unit :=
  fun w =>
    match pools w !! p with
    | Some _ =>
        (Ret tt, Build_World (objects w) (<[p := l]> (pools w)) (ticks w)
                             (log w) (fresh w))
    | None => (Raise Dangling, w)
    end.

(** A new object. *)
Definition alloc (x : action) : M addr :=
  fun w =>
    (Ret (fresh w),
     Build_World (<[fresh w := x]> (objects w)) (pools w) (ticks w) (log w)
                 (S (fresh w))).

(** [log.info] and [log.error]. *)
Definition emit (e : LogEvent) : M unit :=
  fun w =>
    (Ret tt, Build_World (objects w) (pools w) (ticks w) (log w ++ [e])
                         (fresh w)).

(** [cmp(t1, t2)] on two values of [time]: [None] is equal to itself, two
    instants are ordered, and a [datetime] refuses to be ordered with
    [None]. *)
Definition cmp_time (t1 t2 : option Z) : PyErr + comparison :=
  match t1, t2 with
  | None, None => inr Eq
  | Some a, Some b => inr (a ?= b)%Z
  | _, _ => inl TypeError
  end.

(** [Action.__cmp__(a, b)]: [cmp(self.time, other.time)]. *)
Definition __cmp__ (a b : addr) : M comparison :=
  ta <~ getattr a time ;;
  tb <~ getattr b time ;;
  match cmp_time ta tb with
  | inl e => raise e
  | inr c => ret c
  end.

(** [a == b] on two actions: identity first, then [__cmp__]. *)
Definition action_eq (a b : addr) : M bool :=
  if decide (a = b) then ret true
  else c <~ __cmp__ a b ;; ret (match c with Eq => true | _ => false end).

(** [a < b] on two actions, through [__cmp__]. *)
Definition action_lt (a b : addr) : M bool :=
  c <~ __cmp__ a b ;; ret (match c with Lt => true | _ => false end).

(** [l.remove(x)]: drops the first element equal to [x], and raises
    [ValueError] when there is none. *)
Fixpoint list_remove (x : addr) (l : list addr) : M (list addr) :=
  match l with
  | [] => raise ValueError
  | e :: l' =>
      b <~ action_eq e x ;;
      if b then ret l' else r <~ list_remove x l' ;; ret (e :: r)
  end.

(** [min(l)]: the first of the least elements; [ValueError] on the empty
    list. *)
Fixpoint min_from (best : addr) (l : list addr) : M addr :=
  match l with
  | [] => ret best
  | e :: l' =>
      b <~ action_lt e best ;; min_from (if b then e else best) l'
  end.

Definition py_min (l : list addr) : M addr :=
  match l with
  | [] => raise ValueError
  | e :: l' => min_from e l'
  end.

(** [sorted(l)]: a new list, sorted through [<] and so through [__cmp__],
    equal elements staying in the order they had.  The builtin is modelled
    by the insertion sort that puts each element behind those that are not
    greater, which yields the one list a stable sort can yield. *)
Fixpoint insert_sorted (x : addr) (l : list addr) : M (list addr) :=
  match l with
  | [] => ret [x]
  | y :: l' =>
      b <~ action_lt x y ;;
      if b then ret (x :: y :: l') else r <~ insert_sorted x l' ;; ret (y :: r)
  end.

Fixpoint sorted_from (acc l : list addr) : M (list addr) :=
  match l with
  | [] => ret acc
  | x :: l' => acc' <~ insert_sorted x acc ;; sorted_from acc' l'
  end.

Definition py_sorted (l : list addr) : M (list addr) := sorted_from [] l.

(** ** class ActionPool *)

Module ActionPool.

(** [ActionPool()]: a new pool with no action. *)
Definition __init__ : M addr :=
  fun w =>
    (Ret (fresh w),
     Build_World (objects w) (<[fresh w := []]> (pools w)) (ticks w) (log w)
                 (S (fresh w))).

Definition _funcs (self : addr) : M (list Func) :=
  l <~ members self ;; map_m (fun a => getattr a _func) l.

(** [iter(sorted(self._actions))], as the list of what the iterator
    yields. *)
Definition __iter__ (self : addr) : M (list addr) :=
  l <~ members self ;; py_sorted l.

Definition add (self action : addr) : M bool :=
  f <~ getattr action _func ;;
  fs <~ _funcs self ;;
  if bool_decide (f ∈ fs) then ret false
  else
    l <~ members self ;;
    set_members self (l ++ [action]) ;;;
    update action (set_pool (Some self)) ;;;
    ret true.

Definition extend (self : addr) (actions : list addr) : M nat :=
  actions <~ filter_m (fun a =>
               f <~ getattr a _func ;;
               fs <~ _funcs self ;;
               ret (negb (bool_decide (f ∈ fs)))) actions ;;
  l <~ members self ;;
  set_members self (l ++ actions) ;;;
  for_each (fun action => update action (set_pool (Some self))) actions ;;;
  ret (length actions).

Definition remove (self action : addr) : M unit :=
  l <~ members self ;;
  l' <~ list_remove action l ;;
  set_members self l' ;;;
  update action (set_pool None).

Definition clear (self : addr) : M unit :=
  l <~ members self ;;
  match l with
  | [] => ret tt
  | _ =>
      for_each (fun a => update a (set_pool None)) l ;;;
      set_members self []
  end.

(** The attribute [get] compares against: [_func] for a callable, [tag]
    otherwise. *)
Definition matches (func_or_tag : Ident) (x : action) : bool :=
  match func_or_tag with
  | ByFunc f => bool_decide (_func x = f)
  | ByTag t => bool_decide (tag x = t)
  end.

Fixpoint first_match (func_or_tag : Ident) (l : list addr)
  : M (option addr) :=
  match l with
  | [] => ret None
  | a :: l' =>
      x <~ deref a ;;
      if matches func_or_tag x then ret (Some a)
      else first_match func_or_tag l'
  end.

Definition get (self : addr) (func_or_tag : Ident) : M (option addr) :=
  l <~ members self ;; first_match func_or_tag l.

(** [bool(self.get(...))]: an action has neither [__nonzero__] nor
    [__len__], so it is true, and [None] is false. *)
Definition has (self : addr) (func_or_tag : Ident) : M bool :=
  r <~ get self func_or_tag ;;
  ret (match r with Some _ => true | None => false end).

Definition next (self : addr) : M (option addr) :=
  l <~ members self ;;
  match l with
  | [] => ret None
  | _ =>
      timed <~ filter_m (fun a =>
                 t <~ getattr a time ;;
                 ret (match t with Some _ => true | None => false end)) l ;;
      a <~ py_min timed ;;
      ret (Some a)
  end.

End ActionPool.

(** ** The clock and the work *)

(** [datetime.utcnow()]: the next reading of the clock. *)
Definition utcnow (E : Env) : M Z :=
  fun w =>
    (Ret (clk E (ticks w)),
     Build_World (objects w) (pools w) (S (ticks w)) (log w) (fresh w)).

(** The call of [_func] with the bound arguments: the work runs and hands
    back its result. *)
Definition run (E : Env) (f : Func) : M PyVal :=
  fun w => (Ret (work E f (ticks w)), w).

(** [nexttime()] for a callable [nexttime]. *)
Definition call_nexttime (g : nat -> option Z) : M (option Z) :=
  fun w => (Ret (g (ticks w)), w).

(** An object of class [c] before its [__init__] has run. *)
Definition blank (c : Class) : action :=
  Build_action c None None None EmptyString 0%Z DefaultNext None [] [] 600%Z.

(** Modelled from the spec: [bitcalm.utils.total_seconds] is not among the
    sources; it is the "duration-to-seconds conversion utility used by
    timeLeft".  A [timedelta] is a number of seconds here, and the
    conversion returns that number. *)
Definition total_seconds (d : Z) : Z := d.

(** ** class Action *)

Module Action.
Section WithEnv.
Context (E : Env).

Definition _default_next (self : addr) : M (option Z) :=
  last <~ getattr self lastexectime ;;
  base <~ match last with
          | Some t => ret t
          | None => utcnow E
          end ;;
  p <~ getattr self _period ;;
  ret (Some (base + p)%Z).

Definition next (self : addr) : M unit :=
  rule <~ getattr self _next ;;
  t <~ match rule with
       | DefaultNext => _default_next self
       | CustomNext g => call_nexttime g
       end ;;
  update self (set_time t).

Definition delay (self : addr) (period : Z) : M unit :=
  now <~ utcnow E ;;
  update self (set_time (Some (now + period)%Z)).

(** [delay()] with its default [period=600]. *)
Definition delay_default (self : addr) : M unit := delay self 600%Z.

Definition __init__ (self : addr) (nexttime : NextTime) (func : Func)
    (kw_tag : option string) (kw_start : option Z) : M unit :=
  update self (fun x =>
    Build_action (cls x) kw_tag None None func
      (match nexttime with Period n => n | NextFn _ => 0%Z end)
      (match nexttime with Period _ => DefaultNext | NextFn g => CustomNext g end)
      (time x) (_followers x) (_cancel x) (step x)) ;;;
  match kw_start with
  | None => next self
  | Some start =>
      now <~ utcnow E ;;
      update self (set_time (Some (now + start)%Z))
  end.

Definition __call__ (self : addr) : M unit :=
  f <~ getattr self _func ;;
  emit (Info_perform f) ;;;
  now <~ utcnow E ;;
  update self (set_lastexectime (Some now)) ;;;
  r <~ run E f ;;
  if truthy r then
    next self ;;;
    emit (Info_complete f)
  else
    delay_default self ;;;
    emit (Error_failed f).

(** [self.time > now] raises [TypeError] when [time] is [None]: a
    [datetime] refuses to be ordered with [None]. *)
Definition time_left (self : addr) : M Z :=
  now <~ utcnow E ;;
  t <~ getattr self time ;;
  match t with
  | None => raise TypeError
  | Some t =>
      if (now <? t)%Z then ret (total_seconds (t - now)%Z) else ret 0%Z
  end.

End WithEnv.
End Action.

(** ** class StepAction(Action) *)

Module StepAction.
Section WithEnv.
Context (E : Env).

Definition __init__ (self : addr) (nexttime : NextTime) (func : Func)
    (kw_tag : option string) (kw_start kw_step : option Z) : M unit :=
  update self (fun x =>
    Build_action (cls x) (tag x) (pool x) (lastexectime x) (_func x)
      (_period x) (_next x) (time x) (_followers x) (_cancel x)
      (match kw_step with Some s => s | None => 600%Z end)) ;;;
  Action.__init__ E self nexttime func kw_tag kw_start.

Definition __call__ (self : addr) : M unit :=
  f <~ getattr self _func ;;
  emit (Info_perform f) ;;;
  result <~ run E f ;;
  now <~ utcnow E ;;
  update self (set_lastexectime (Some now)) ;;;
  if py_eq_int result (-1) then
    now <~ utcnow E ;;
    s <~ getattr self step ;;
    update self (set_time (Some (now + s)%Z)) ;;;
    emit (Info_step_complete f)
  else if py_eq_int result 1 then
    Action.next E self ;;;
    emit (Info_complete f)
  else
    Action.delay_default E self ;;;
    emit (Error_failed f).

End WithEnv.
End StepAction.

(** ** class OneTimeAction(Action) and class ActionSeed *)

Module ActionSeed.
Section WithEnv.
Context (E : Env).

(** [OneTimeAction.__init__]: it pops [followers] and [cancel] and leaves
    the rest to [Action.__init__]. *)
Definition OneTimeAction__init__ (self : addr) (nexttime : NextTime)
    (func : Func) (kw_tag : option string) (kw_start : option Z)
    (kw_followers : list Follower) (kw_cancel : list CancelItem) : M unit :=
  update self (fun x =>
    Build_action (cls x) (tag x) (pool x) (lastexectime x) (_func x)
      (_period x) (_next x) (time x) kw_followers kw_cancel (step x)) ;;;
  Action.__init__ E self nexttime func kw_tag kw_start.

(** [c(nexttime, func, **kwargs)]: a new object of class [c], initialised
    by the [__init__] of [c]. *)
Definition construct (c : Class) (nexttime : NextTime) (func : Func)
    (kw_tag : option string) (kw_start kw_step : option Z)
    (kw_followers : list Follower) (kw_cancel : list CancelItem) : M addr :=
  self <~ alloc (blank c) ;;
  match c with
  | ClsAction => Action.__init__ E self nexttime func kw_tag kw_start
  | ClsOneTimeAction =>
      OneTimeAction__init__ self nexttime func kw_tag kw_start
                            kw_followers kw_cancel
  | ClsStepAction =>
      StepAction.__init__ E self nexttime func kw_tag kw_start kw_step
  end ;;;
  ret self.

(** [ActionSeed.grow]: [cls] called with the stored arguments. *)
Definition grow (c : Class) (nexttime : NextTime) (func : Func)
    (kw_tag : option string) (kw_start kw_step : option Z)
    (kw_followers : list Follower) (kw_cancel : list CancelItem) : M addr :=
  construct c nexttime func kw_tag kw_start kw_step kw_followers kw_cancel.

End WithEnv.
End ActionSeed.

Module OneTimeAction.
Section WithEnv.
Context (E : Env).

Definition __init__ := ActionSeed.OneTimeAction__init__ E.

(** The local function [grow] of [__call__]. *)
Definition grow (a : Follower) : M addr :=
  match a with
  | FSeed c nexttime func kw_tag kw_start kw_step kw_followers kw_cancel =>
      ActionSeed.grow E c nexttime func kw_tag kw_start kw_step
                      kw_followers kw_cancel
  | FAction x => ret x
  end.

(** One turn of the loop over [_cancel]. *)
Definition cancel_item (pool : addr) (item : CancelItem) : M unit :=
  match item with
  | CAction a => ActionPool.remove pool a
  | CIdent i =>
      r <~ ActionPool.get pool i ;;
      match r with
      | None => ret tt
      | Some a => ActionPool.remove pool a
      end
  end.

(** [follower.next()]; an [ActionSeed] has no [next]. *)
Definition follower_next (follower : Follower) : M unit :=
  match follower with
  | FAction a => Action.next E a
  | FSeed _ _ _ _ _ _ _ _ => raise AttributeError
  end.

Definition __call__ (self : addr) : M unit :=
  f <~ getattr self _func ;;
  emit (Info_perform f) ;;;
  now <~ utcnow E ;;
  update self (set_lastexectime (Some now)) ;;;
  r <~ run E f ;;
  if truthy r then
    p <~ getattr self pool ;;
    match p with
    | Some pool =>
        ActionPool.remove pool self ;;;
        cancel <~ getattr self _cancel ;;
        for_each (cancel_item pool) cancel ;;;
        followers <~ getattr self _followers ;;
        match followers with
        | [] => ret tt
        | _ =>
            grown <~ map_m grow followers ;;
            update self (set_followers (map FAction grown)) ;;;
            n <~ ActionPool.extend pool grown ;;
            ret tt
        end ;;;
        followers <~ getattr self _followers ;;
        for_each follower_next followers
    | None => ret tt
    end ;;;
    emit (Info_complete f)
  else
    Action.next E self.

End WithEnv.
End OneTimeAction.


(** * The vocabulary of the statements *)

(** [a] names an object of [w]. *)
Definition allocated (w : World) (a : addr) : Prop := is_Some (objects w !! a).

(** The attribute [f] of the objects named by [l], in order. *)
Definition attrs {A} (f : action -> A) (w : World) (l : list addr) : list A :=
  omap (fun m => f <$> objects w !! m) l.

(** [w] with the object at [a] replaced, and with the list of pool [p]
    replaced. *)
Definition with_object (a : addr) (x : action) (w : World) : World :=
  Build_World (<[a := x]> (objects w)) (pools w) (ticks w) (log w) (fresh w).

Definition with_members (p : addr) (l : list addr) (w : World) : World :=
  Build_World (objects w) (<[p := l]> (pools w)) (ticks w) (log w) (fresh w).

(** Unfolds the primitive computations and reads back what was just
    written. *)
Ltac py_simpl :=
  repeat (first
    [ progress (unfold bind, ret, raise, getattr, deref, update, alloc, emit,
                utcnow, run, call_nexttime; simpl)
    | rewrite lookup_insert_eq
    | rewrite insert_insert_eq ]).

(** The same, for a computation on an object the hypothesis [H] gives. *)
Ltac py_simpl_with H :=
  repeat (first
    [ progress (unfold bind, ret, raise, getattr, deref, update, alloc, emit,
                utcnow, run, call_nexttime; simpl)
    | rewrite H
    | rewrite lookup_insert_eq
    | rewrite insert_insert_eq ]).

(** The object a constructor of class [c] leaves behind, but for [time]. *)
Definition init_fields (c : Class) (nexttime : NextTime) (func : Func)
    (kw_tag : option string) (kw_step : option Z)
    (kw_followers : list Follower) (kw_cancel : list CancelItem)
    (t : option Z) : action :=
  Build_action c kw_tag None None func
    (match nexttime with Period n => n | NextFn _ => 0%Z end)
    (match nexttime with Period _ => DefaultNext | NextFn g => CustomNext g end)
    t
    (match c with ClsOneTimeAction => kw_followers | _ => [] end)
    (match c with ClsOneTimeAction => kw_cancel | _ => [] end)
    (match c with ClsStepAction => default 600%Z kw_step | _ => 600%Z end).

(** The [time] a constructor sets, and whether it read the clock for it. *)
Definition init_time (E : Env) (w : World) (nexttime : NextTime)
    (kw_start : option Z) : option Z * nat :=
  match kw_start, nexttime with
  | Some s, _ => (Some (clk E (ticks w) + s)%Z, S (ticks w))
  | None, Period p => (Some (clk E (ticks w) + p)%Z, S (ticks w))
  | None, NextFn g => (g (ticks w), ticks w)
  end.

(** [e == a] is false: they are two objects and their times are two
    different instants. *)
Definition differs (w : World) (a e : addr) : Prop :=
  e <> a /\
  exists xe xa te ta,
    objects w !! e = Some xe /\ objects w !! a = Some xa /\
    time xe = Some te /\ time xa = Some ta /\ te <> ta.

(** [e == a] is true: they are one object, or their times are equal. *)
Definition equals (w : World) (a e : addr) : Prop :=
  e = a \/
  exists xe xa,
    objects w !! e = Some xe /\ objects w !! a = Some xa /\
    time xe = time xa /\ (time xe = None \/ is_Some (time xe)).

(** The object [a] has [time] [Some t]. *)
Definition time_at (w : World) (a : addr) (t : Z) : Prop :=
  exists x, objects w !! a = Some x /\ time x = Some t.

(** [a.time is not None]. *)
Definition has_time (w : World) (a : addr) : bool :=
  match objects w !! a with
  | Some x => match time x with Some _ => true | None => false end
  | None => false
  end.

(** The test of the comprehension in [extend]: the [_func] of [a] is not
    that of a member of the list [l]. *)
Definition is_new (w : World) (l : list addr) (a : addr) : bool :=
  match objects w !! a with
  | Some x => negb (bool_decide (_func x ∈ attrs _func w l))
  | None => false
  end.

(** ** Runs of the module *)

(** A clock read several times within one second, and work that succeeds. *)
Definition E_still : Env :=
  Build_Env (fun _ => 1000%Z) (fun _ _ => PyBool true).

(** A clock that moves on by ten seconds a reading; the work ["sync"]
    succeeds, ["upload"] returns [-1] and every other work fails. *)
Definition E_moving : Env :=
  Build_Env (fun n => 1000 + 10 * Z.of_nat n)%Z
            (fun f _ => if bool_decide (f = "sync") then PyBool true
                        else if bool_decide (f = "upload") then PyInt (-1)
                        else PyBool false).

(** The store before anything is built. *)
Definition nothing : World := Build_World ∅ ∅ 0 [] 0.

(** [p = ActionPool(); a = Action(60, sync); b = Action(60, upload);
    c = Action(60, prune); p.add(a); p.add(b)]: the pool is object 0 and
    [a], [b], [c] are objects 1, 2, 3; [c] is in no pool. *)
Definition three_actions (E : Env) : M unit :=
  p <~ ActionPool.__init__ ;;
  a <~ ActionSeed.construct E ClsAction (Period 60) "sync" None None None
         [] [] ;;
  b <~ ActionSeed.construct E ClsAction (Period 60) "upload" None None None
         [] [] ;;
  c <~ ActionSeed.construct E ClsAction (Period 60) "prune" None None None
         [] [] ;;
  ActionPool.add p a ;;;
  ActionPool.add p b ;;;
  ret tt.

(** [p = ActionPool(); a = Action(60, sync); b = OneTimeAction(60, setup);
    p.add(a); p.add(b)]: the pool is object 0, [a] is 1 and [b] is 2. *)
Definition sync_then_setup (E : Env) : M unit :=
  p <~ ActionPool.__init__ ;;
  a <~ ActionSeed.construct E ClsAction (Period 60) "sync" None None None
         [] [] ;;
  b <~ ActionSeed.construct E ClsOneTimeAction (Period 60) "setup" None None
         None [] [] ;;
  ActionPool.add p a ;;;
  ActionPool.add p b ;;;
  ret tt.

(** [p = ActionPool(); a = Action(lambda: None, idle); p.add(a)]: the pool
    is object 0 and [a] is 1. *)
Definition never_scheduled (E : Env) : M unit :=
  p <~ ActionPool.__init__ ;;
  a <~ ActionSeed.construct E ClsAction (NextFn (fun _ => None)) "idle" None
         None None [] [] ;;
  ActionPool.add p a ;;;
  ret tt.

(** [p = ActionPool(); a = Action(60, sync); b = Action(60, sync)]: two
    actions on one work; the pool is object 0, [a] is 1 and [b] is 2. *)
Definition same_work_twice (E : Env) : M unit :=
  p <~ ActionPool.__init__ ;;
  a <~ ActionSeed.construct E ClsAction (Period 60) "sync" None None None
         [] [] ;;
  b <~ ActionSeed.construct E ClsAction (Period 60) "sync" None None None
         [] [] ;;
  ret tt.

(** A clock that moves on by ten seconds a reading, and work that
    succeeds. *)
Definition E_busy : Env :=
  Build_Env (fun n => 1000 + 10 * Z.of_nat n)%Z (fun _ _ => PyBool true).

(** [p = ActionPool(); a = Action(60, sync, tag="s"); b = Action(120, upload);
    c = Action(30, prune); d = Action(300, report);
    o = OneTimeAction(15, setup,
          followers=[ActionSeed(20, index), d, ActionSeed(40, upload)],
          cancel=["s", c, missing]);
    p.add(a); p.add(b); p.add(c); p.add(o)]: the pool is object 0 and [a],
    [b], [c], [d], [o] are objects 1 to 5, each with a time of its own. *)
Definition chain (E : Env) : M unit :=
  p <~ ActionPool.__init__ ;;
  a <~ ActionSeed.construct E ClsAction (Period 60) "sync" (Some "s") None
         None [] [] ;;
  b <~ ActionSeed.construct E ClsAction (Period 120) "upload" None None None
         [] [] ;;
  c <~ ActionSeed.construct E ClsAction (Period 30) "prune" None None None
         [] [] ;;
  d <~ ActionSeed.construct E ClsAction (Period 300) "report" None None None
         [] [] ;;
  o <~ ActionSeed.construct E ClsOneTimeAction (Period 15) "setup" None None
         None
         [FSeed ClsAction (Period 20) "index" None None None [] [];
          FAction d;
          FSeed ClsAction (Period 40) "upload" None None None [] []]
         [CIdent (ByTag (Some "s")); CAction c; CIdent (ByFunc "missing")] ;;
  ActionPool.add p a ;;;
  ActionPool.add p b ;;;
  ActionPool.add p c ;;;
  ActionPool.add p o ;;;
  ret tt.

(** ** Further vocabulary *)

(** Every action of [l] has a [time] that is set. *)
Definition all_timed (w : World) (l : list addr) : Prop :=
  Forall (fun a => exists t, time_at w a t) l.

(** The member [m] of [l] has its [pool] naming [self]. *)
Definition backrefs (w : World) (self : addr) (l : list addr) : Prop :=
  Forall (fun m => pool <$> objects w !! m = Some (Some self)) l.

(** No member of [l] matches [i]. *)
Definition unmatched (i : Ident) (w : World) (l : list addr) : Prop :=
  Forall (fun a => exists z, objects w !! a = Some z /\
                             ActionPool.matches i z = false) l.

(** The instant [a] is due at; 0 stands in when it has none. *)
Definition time_key (w : World) (a : addr) : Z :=
  default 0%Z (objects w !! a ≫= time).

(** Of two actions the one [min] goes on with: [e] when it is due strictly
    before [best]. *)
Definition earlier (w : World) (best e : addr) : addr :=
  if (time_key w e <? time_key w best)%Z then e else best.

(** Where the sort puts [x] in a sorted list, and the list it makes of [l]
    on top of [acc], by the keys [k]. *)
Fixpoint place (k : addr -> Z) (x : addr) (l : list addr) : list addr :=
  match l with
  | [] => [x]
  | y :: l' => if (k x <? k y)%Z then x :: y :: l' else y :: place k x l'
  end.

Fixpoint place_all (k : addr -> Z) (acc l : list addr) : list addr :=
  match l with
  | [] => acc
  | x :: l' => place_all k (place k x acc) l'
  end.

(** [a] is due no later than [b]. *)
Definition due_before (w : World) (a b : addr) : Prop :=
  (time_key w a <= time_key w b)%Z.


(** [w] after one more reading of the clock. *)
Definition ticked (w : World) : World :=
  Build_World (objects w) (pools w) (S (ticks w)) (log w) (fresh w).

(** [p = ActionPool(); c = Action(60, prune);
    o = OneTimeAction(15, setup, cancel=[c]); p.add(o)]: the pool is object
    0, [c] is 1 and is in no pool, [o] is 2. *)
Definition cancel_stranger (E : Env) : M unit :=
  p <~ ActionPool.__init__ ;;
  c <~ ActionSeed.construct E ClsAction (Period 60) "prune" None None None
         [] [] ;;
  o <~ ActionSeed.construct E ClsOneTimeAction (Period 15) "setup" None None
         None [] [CAction c] ;;
  ActionPool.add p o ;;;
  ret tt.

(** [p = ActionPool(); a = Action(lambda: None, idle); b = Action(60, sync);
    p.add(a)]: the pool is object 0, [a] is 1 and has no [time], [b] is 2
    and is in no pool. *)
Definition idle_and_sync (E : Env) : M unit :=
  p <~ ActionPool.__init__ ;;
  a <~ ActionSeed.construct E ClsAction (NextFn (fun _ => None)) "idle" None
         None None [] [] ;;
  b <~ ActionSeed.construct E ClsAction (Period 60) "sync" None None None
         [] [] ;;
  ActionPool.add p a ;;;
  ret tt.

(** [p = ActionPool(); a = Action(60, sync);
    o = OneTimeAction(15, setup, followers=[ActionSeed(30, index)]);
    p.add(a); p.add(o)]: the pool is object 0, [a] is 1 and [o] is 2. *)
Definition setup_with_seed (E : Env) : M unit :=
  p <~ ActionPool.__init__ ;;
  a <~ ActionSeed.construct E ClsAction (Period 60) "sync" None None None
         [] [] ;;
  o <~ ActionSeed.construct E ClsOneTimeAction (Period 15) "setup" None None
         None [FSeed ClsAction (Period 30) "index" None None None [] []] [] ;;
  ActionPool.add p a ;;;
  ActionPool.add p o ;;;
  ret tt.


(** [p = ActionPool(); q = ActionPool(); a = Action(60, sync); p.add(a)]:
    the pools are objects 0 and 1 and [a] is 2. *)
Definition two_pools (E : Env) : M unit :=
  p <~ ActionPool.__init__ ;;
  q <~ ActionPool.__init__ ;;
  a <~ ActionSeed.construct E ClsAction (Period 60) "sync" None None None
         [] [] ;;
  ActionPool.add p a ;;;
  ret tt.

(** Proof steps for statements about one store that is given in full. *)
Ltac by_computation := vm_compute; reflexivity.

Ltac solve_allocated :=
  repeat (constructor; [vm_compute; eexists; reflexivity|]); constructor.

Ltac solve_differs :=
  repeat (constructor;
    [split; [lia|
       eexists _, _, _, _; split_and!; [by_computation..|lia]]|]);
  constructor.

Ltac solve_timed :=
  repeat (constructor;
    [eexists _, _; split; by_computation|]);
  constructor.

Ltac refute_member :=
  let m := fresh "m" in let y := fresh "y" in
  let Hm := fresh "Hm" in let Hy := fresh "Hy" in let Hf := fresh "Hf" in
  intros (m & y & Hm & Hy & Hf);
  repeat (apply elem_of_cons in Hm as [->|Hm];
    [vm_compute in Hy; injection Hy as <-; vm_compute in Hf;
     discriminate Hf|]);
  by apply elem_of_nil in Hm.

(** * Properties *)

(** ** Stores and how the primitive computations act on them *)

Lemma elem_of_attrs {A} (f : action -> A) w l v :
  v ∈ attrs f w l <-> exists m y, m ∈ l /\ objects w !! m = Some y /\ f y = v.
Proof.
  unfold attrs. rewrite list_elem_of_omap. split.
  - intros (m & Hm & Hv). destruct (objects w !! m) as [y|] eqn:Hy;
      simpl in Hv; [|discriminate].
    exists m, y. split; [done|]. split; [done|]. congruence.
  - intros (m & y & Hm & Hy & Hv). exists m. split; [done|].
    rewrite Hy. simpl. congruence.
Qed.

Lemma deref_eq w a x :
  objects w !! a = Some x -> deref a w = (Ret x, w).
Proof. intros H. unfold deref. by rewrite H. Qed.

Lemma getattr_eq {A} (f : action -> A) w a x :
  objects w !! a = Some x -> getattr a f w = (Ret (f x), w).
Proof. intros H. unfold getattr, bind. by rewrite (deref_eq _ _ _ H). Qed.

Lemma update_eq w a f x :
  objects w !! a = Some x -> update a f w = (Ret tt, with_object a (f x) w).
Proof. intros H. unfold update. by rewrite H. Qed.

Lemma members_eq w p l :
  pools w !! p = Some l -> members p w = (Ret l, w).
Proof. intros H. unfold members. by rewrite H. Qed.

Lemma set_members_eq w p l l' :
  pools w !! p = Some l -> set_members p l' w = (Ret tt, with_members p l' w).
Proof. intros H. unfold set_members. by rewrite H. Qed.

Lemma map_m_getattr {A} (f : action -> A) w l :
  Forall (allocated w) l ->
  map_m (fun a => getattr a f) l w = (Ret (attrs f w l), w).
Proof.
  induction 1 as [|a l [x Hx] _ IH]; [done|].
  simpl. unfold bind at 1. rewrite (getattr_eq _ _ _ _ Hx).
  unfold bind at 1. rewrite IH. unfold attrs. simpl. by rewrite Hx.
Qed.

Lemma funcs_eq w p l :
  pools w !! p = Some l -> Forall (allocated w) l ->
  ActionPool._funcs p w = (Ret (attrs _func w l), w).
Proof.
  intros Hp Hl. unfold ActionPool._funcs, bind.
  rewrite (members_eq _ _ _ Hp). by apply map_m_getattr.
Qed.

(** ** ActionPool.add *)

(** C7.  [add(action)] on a pool whose list is [l]: when a member of [l] has
    the [_func] of [action], it returns [False] and the store is the one it
    started from, so the list, its length and [action.pool] are as before;
    when no member has it, it returns [True], the list is [l] with [action]
    at its end, one longer, [action.pool] is the pool, and no other object
    and no other pool has changed. *)
Theorem add_spec (w : World) (self a : addr) (l : list addr) (x : action) :
  pools w !! self = Some l ->
  objects w !! a = Some x ->
  Forall (allocated w) l ->
  ((exists m y, m ∈ l /\ objects w !! m = Some y /\ _func y = _func x) ->
   ActionPool.add self a w = (Ret false, w)) /\
  (~ (exists m y, m ∈ l /\ objects w !! m = Some y /\ _func y = _func x) ->
   exists w',
     ActionPool.add self a w = (Ret true, w') /\
     pools w' !! self = Some (l ++ [a]) /\
     length (l ++ [a]) = S (length l) /\
     objects w' !! a = Some (set_pool (Some self) x) /\
     pool (set_pool (Some self) x) = Some self /\
     (forall b, b <> a -> objects w' !! b = objects w !! b) /\
     (forall q, q <> self -> pools w' !! q = pools w !! q)).
Proof.
  intros Hp Ha Hl.
  assert (Hadd : ActionPool.add self a w =
    if bool_decide (_func x ∈ attrs _func w l) then (Ret false, w)
    else (Ret true,
          with_object a (set_pool (Some self) x)
            (with_members self (l ++ [a]) w))).
  { unfold ActionPool.add. unfold bind at 1. rewrite (getattr_eq _ _ _ _ Ha).
    unfold bind at 1. rewrite (funcs_eq _ _ _ Hp Hl).
    case_bool_decide; [done|].
    unfold bind at 1. rewrite (members_eq _ _ _ Hp).
    unfold bind at 1. rewrite (set_members_eq _ _ _ _ Hp).
    unfold bind at 1. by rewrite (update_eq _ _ _ x). }
  split; intros Hex; rewrite Hadd.
  - rewrite bool_decide_eq_true_2; [done|]. by apply elem_of_attrs.
  - rewrite bool_decide_eq_false_2; [|by rewrite elem_of_attrs].
    eexists. split; [done|]. simpl.
    split; [by rewrite lookup_insert_eq|].
    split; [rewrite length_app; simpl; lia|].
    split; [by rewrite lookup_insert_eq|].
    split; [done|].
    split; intros ? ?; by rewrite lookup_insert_ne.
Qed.

(** ** Construction *)

Lemma construct_eq E c nt f tg start stp fol can w :
  ActionSeed.construct E c nt f tg start stp fol can w =
  (Ret (fresh w),
   Build_World
     (<[fresh w := init_fields c nt f tg stp fol can
                     (fst (init_time E w nt start))]> (objects w))
     (pools w) (snd (init_time E w nt start)) (log w) (S (fresh w))).
Proof.
  unfold ActionSeed.construct, ActionSeed.OneTimeAction__init__,
    StepAction.__init__, Action.__init__, Action.next, Action._default_next.
  destruct c, nt, start, stp; py_simpl; reflexivity.
Qed.

(** C8.  An action of any of the three classes built with a number of
    seconds [p] and no [start] has [time] = the clock reading made during the
    construction + [p], its [lastexectime] being [None]; built with
    [start=s], whatever its first argument, it has [time] = that clock
    reading + [s]. *)
Theorem init_scheduled_time (E : Env) (w : World) (c : Class) (p : Z)
    (f : Func) (tg : option string) (stp : option Z)
    (fol : list Follower) (can : list CancelItem) :
  (exists w',
     ActionSeed.construct E c (Period p) f tg None stp fol can w
       = (Ret (fresh w), w') /\
     time <$> objects w' !! fresh w = Some (Some (clk E (ticks w) + p)%Z) /\
     lastexectime <$> objects w' !! fresh w = Some None /\
     _next <$> objects w' !! fresh w = Some DefaultNext) /\
  (forall nt s, exists w',
     ActionSeed.construct E c nt f tg (Some s) stp fol can w
       = (Ret (fresh w), w') /\
     time <$> objects w' !! fresh w = Some (Some (clk E (ticks w) + s)%Z)).
Proof.
  split; [|intros nt s]; rewrite construct_eq; eexists; (split; [done|]);
    simpl; rewrite lookup_insert_eq; simpl; done.
Qed.

(** ** Invocation *)

(** C4.  [Action.__call__] on an object [x], when the clock has been read
    [ticks w] times: [lastexectime] becomes the next reading [t0], and the
    work runs after that reading.  When its result is true, [time] becomes
    [t0 + _period] under the default rule and whatever [_next] returns under
    a custom one, and the log gains two info events; when it is false,
    [time] becomes the following reading + 600 and the log gains an error
    event. *)
Theorem action_call_spec (E : Env) (w : World) (self : addr) (x : action) :
  objects w !! self = Some x ->
  let t0 := clk E (ticks w) in
  let t1 := clk E (S (ticks w)) in
  let r := work E (_func x) (S (ticks w)) in
  exists w',
    Action.__call__ E self w = (Ret tt, w') /\
    lastexectime <$> objects w' !! self = Some (Some t0) /\
    time <$> objects w' !! self =
      Some (if truthy r
            then match _next x with
                 | DefaultNext => Some (t0 + _period x)%Z
                 | CustomNext g => g (S (ticks w))
                 end
            else Some (t1 + 600)%Z) /\
    log w' = log w ++ Info_perform (_func x) ::
               (if truthy r then [Info_complete (_func x)]
                else [Error_failed (_func x)]).
Proof.
  intros Hx t0 t1 r. subst t0 t1 r.
  unfold Action.__call__, Action.next, Action._default_next,
    Action.delay_default, Action.delay.
  destruct x as [c tg pl le f per nx tm fo ca st]; simpl in *.
  py_simpl_with Hx.
  destruct (truthy _); [destruct nx|]; py_simpl;
    (eexists; split; [reflexivity|]); simpl; rewrite lookup_insert_eq; simpl;
    rewrite <- ?app_assoc; done.
Qed.

(** C5.  [StepAction.__call__] on an object [x], when the clock has been read
    [ticks w] times: the work runs before any further reading and
    [lastexectime] becomes the reading [t0] made after it.  A result equal to
    [-1] sets [time] to the following reading + [step]; a result equal to [1]
    applies the rule of [next()]; any other result sets [time] to the
    following reading + 600 and logs an error.  A [StepAction] built without
    [step] has [step] = 600. *)
Theorem step_call_spec (E : Env) (w : World) (self : addr) (x : action) :
  objects w !! self = Some x ->
  let t0 := clk E (ticks w) in
  let t1 := clk E (S (ticks w)) in
  let r := work E (_func x) (ticks w) in
  (exists w',
    StepAction.__call__ E self w = (Ret tt, w') /\
    lastexectime <$> objects w' !! self = Some (Some t0) /\
    time <$> objects w' !! self =
      Some (if py_eq_int r (-1) then Some (t1 + step x)%Z
            else if py_eq_int r 1
            then match _next x with
                 | DefaultNext => Some (t0 + _period x)%Z
                 | CustomNext g => g (S (ticks w))
                 end
            else Some (t1 + 600)%Z) /\
    log w' = log w ++ Info_perform (_func x) ::
               (if py_eq_int r (-1) then [Info_step_complete (_func x)]
                else if py_eq_int r 1 then [Info_complete (_func x)]
                else [Error_failed (_func x)])) /\
  (forall w0 nt f tg start,
     step <$> objects (snd (ActionSeed.construct E ClsStepAction nt f tg start
                              None [] [] w0)) !! fresh w0 = Some 600%Z).
Proof.
  intros Hx t0 t1 r. subst t0 t1 r. split.
  - unfold StepAction.__call__, Action.next, Action._default_next,
      Action.delay_default, Action.delay.
    destruct x as [c tg pl le f per nx tm fo ca st]; simpl in *.
    py_simpl_with Hx.
    destruct (py_eq_int _ (-1)); [|destruct (py_eq_int _ 1);
      [destruct nx|]]; py_simpl;
      (eexists; split; [reflexivity|]); simpl; rewrite lookup_insert_eq;
      simpl; rewrite <- ?app_assoc; done.
  - intros. rewrite construct_eq. simpl. by rewrite lookup_insert_eq.
Qed.

(** C6.  When the work of the object [x] returns a false value,
    [OneTimeAction.__call__] sets [time] by the rule of [next()] and logs no
    error, where [Action.__call__] on the same object in the same store sets
    it to a clock reading + 600; the two values of [time] differ whenever the
    rule does not give that reading + 600. *)
Theorem onetime_failure_spec (E : Env) (w : World) (self : addr) (x : action) :
  objects w !! self = Some x ->
  truthy (work E (_func x) (S (ticks w))) = false ->
  let t0 := clk E (ticks w) in
  let t1 := clk E (S (ticks w)) in
  let by_rule := match _next x with
                 | DefaultNext => Some (t0 + _period x)%Z
                 | CustomNext g => g (S (ticks w))
                 end in
  exists w1 w2,
    OneTimeAction.__call__ E self w = (Ret tt, w1) /\
    Action.__call__ E self w = (Ret tt, w2) /\
    time <$> objects w1 !! self = Some by_rule /\
    time <$> objects w2 !! self = Some (Some (t1 + 600)%Z) /\
    log w1 = log w ++ [Info_perform (_func x)] /\
    log w2 = log w ++ [Info_perform (_func x); Error_failed (_func x)] /\
    (by_rule <> Some (t1 + 600)%Z ->
     time <$> objects w1 !! self <> time <$> objects w2 !! self).
Proof.
  intros Hx Hr t0 t1 by_rule. subst t0 t1 by_rule.
  unfold OneTimeAction.__call__, Action.__call__, Action.next,
    Action._default_next, Action.delay_default, Action.delay.
  destruct x as [c tg pl le f per nx tm fo ca st]; simpl in *.
  py_simpl_with Hx. rewrite Hr.
  destruct nx; py_simpl;
    (do 2 eexists; split; [reflexivity|]; split; [reflexivity|]); simpl;
    rewrite !lookup_insert_eq; simpl; rewrite <- ?app_assoc; simpl;
    repeat split; congruence.
Qed.

(** ** ActionPool.get and ActionPool.has *)

Lemma first_match_found (i : Ident) (w : World) (l : list addr) :
  Forall (allocated w) l ->
  (exists m y, m ∈ l /\ objects w !! m = Some y /\
               ActionPool.matches i y = true) ->
  exists l1 m l2 y,
    l = l1 ++ m :: l2 /\
    objects w !! m = Some y /\
    ActionPool.matches i y = true /\
    Forall (fun a => exists z, objects w !! a = Some z /\
                               ActionPool.matches i z = false) l1 /\
    ActionPool.first_match i l w = (Ret (Some m), w).
Proof.
  induction 1 as [|a l [z Hz] Hl IH]; intros (m & y & Hm & Hy & Hi).
  - by apply elem_of_nil in Hm.
  - destruct (ActionPool.matches i z) eqn:Hzi.
    + exists [], a, l, z. repeat split; [done..|].
      simpl. unfold bind. by rewrite (deref_eq _ _ _ Hz), Hzi.
    + assert (Hm' : m ∈ l).
      { apply elem_of_cons in Hm as [->|]; [|done]. congruence. }
      destruct IH as (l1 & m1 & l2 & y1 & -> & Hy1 & Hi1 & Hl1 & Hf);
        [by eauto|].
      exists (a :: l1), m1, l2, y1. repeat split; [done..| |].
      * constructor; eauto.
      * simpl. unfold bind. by rewrite (deref_eq _ _ _ Hz), Hzi.
Qed.

(** C10.  On a pool whose list [l] has a member with [tag] [None],
    [get(None)] takes the [tag] branch, [None] not being callable, and
    returns the first member of [l] whose [tag] is [None]; [has(None)] is
    [True]; and an action built without [tag] has [tag] [None]. *)
Theorem get_None_untagged (w : World) (self : addr) (l : list addr) :
  pools w !! self = Some l ->
  Forall (allocated w) l ->
  (exists m y, m ∈ l /\ objects w !! m = Some y /\ tag y = None) ->
  callable_ident (ByTag None) = false /\
  (exists l1 m l2 y,
     l = l1 ++ m :: l2 /\
     objects w !! m = Some y /\ tag y = None /\
     Forall (fun a => exists z, objects w !! a = Some z /\ tag z <> None) l1 /\
     ActionPool.get self (ByTag None) w = (Ret (Some m), w) /\
     ActionPool.has self (ByTag None) w = (Ret true, w)) /\
  (forall E w0 c nt f start stp fol can,
     tag <$> objects (snd (ActionSeed.construct E c nt f None start stp fol
                             can w0)) !! fresh w0 = Some None).
Proof.
  intros Hp Hl (m & y & Hm & Hy & Ht). split; [done|]. split.
  - destruct (first_match_found (ByTag None) w l Hl)
      as (l1 & m1 & l2 & y1 & -> & Hy1 & Hi1 & Hl1 & Hf).
    { exists m, y. repeat split; [done..|]. simpl. by rewrite Ht. }
    exists l1, m1, l2, y1. simpl in Hi1. apply bool_decide_eq_true_1 in Hi1.
    repeat split; [done..| | |].
    + eapply Forall_impl; [exact Hl1|]. intros a (z & Hz & Hzi).
      exists z. split; [done|]. simpl in Hzi.
      by apply bool_decide_eq_false_1 in Hzi.
    + unfold ActionPool.get, bind. by rewrite (members_eq _ _ _ Hp), Hf.
    + unfold ActionPool.has, ActionPool.get, bind.
      by rewrite (members_eq _ _ _ Hp), Hf.
  - intros. rewrite construct_eq. simpl. by rewrite lookup_insert_eq.
Qed.

(** ** Equality of actions and [list.remove] *)

Lemma action_eq_differs w a e :
  differs w a e -> action_eq e a w = (Ret false, w).
Proof.
  intros (Hne & xe & xa & te & ta & He & Ha & Hte & Hta & Ht).
  unfold action_eq, __cmp__. destruct (decide (e = a)); [done|].
  unfold bind. rewrite (getattr_eq _ _ _ _ He), (getattr_eq _ _ _ _ Ha).
  rewrite Hte, Hta. simpl. unfold ret.
  destruct (Z.compare_spec te ta); congruence.
Qed.

Lemma action_eq_equals w a e :
  equals w a e -> action_eq e a w = (Ret true, w).
Proof.
  unfold action_eq, __cmp__. destruct (decide (e = a)); [done|].
  intros [?|(xe & xa & He & Ha & Ht & _)]; [done|].
  unfold bind. rewrite (getattr_eq _ _ _ _ He), (getattr_eq _ _ _ _ Ha).
  rewrite <- Ht. destruct (time xe) as [t|]; simpl; [|done].
  by rewrite Z.compare_refl.
Qed.

(** [l.remove(a)] drops the first element that compares equal to [a],
    whichever object it is. *)
Lemma list_remove_first w a l1 e l2 :
  Forall (differs w a) l1 -> equals w a e ->
  list_remove a (l1 ++ e :: l2) w = (Ret (l1 ++ l2), w).
Proof.
  intros Hl1 He. induction Hl1 as [|e1 l1 H1 _ IH]; simpl; unfold bind.
  - by rewrite (action_eq_equals _ _ _ He).
  - by rewrite (action_eq_differs _ _ _ H1), IH.
Qed.

(** [l.remove(a)] raises [ValueError], and changes nothing, when no element
    compares equal to [a]. *)
Lemma list_remove_none w a l :
  Forall (differs w a) l -> list_remove a l w = (Raise ValueError, w).
Proof.
  induction 1 as [|e l H1 _ IH]; simpl; unfold bind; [done|].
  by rewrite (action_eq_differs _ _ _ H1), IH.
Qed.

(** [remove(action)] on a pool where the first element comparing equal to
    [action] is [e]: [e] leaves the list and [action.pool] is cleared. *)
Lemma remove_first w self a x l1 e l2 :
  pools w !! self = Some (l1 ++ e :: l2) ->
  objects w !! a = Some x ->
  Forall (differs w a) l1 -> equals w a e ->
  ActionPool.remove self a w =
    (Ret tt, with_object a (set_pool None x) (with_members self (l1 ++ l2) w)).
Proof.
  intros Hp Ha Hl1 He. unfold ActionPool.remove, bind.
  rewrite (members_eq _ _ _ Hp), (list_remove_first _ _ _ _ _ Hl1 He).
  rewrite (set_members_eq _ _ _ _ Hp). by rewrite (update_eq _ _ _ x).
Qed.

(** [remove(action)] raises [ValueError] and leaves the list and
    [action.pool] as they were when no member compares equal to [action]. *)
Lemma remove_none w self a l :
  pools w !! self = Some l ->
  Forall (differs w a) l ->
  ActionPool.remove self a w = (Raise ValueError, w).
Proof.
  intros Hp Hl. unfold ActionPool.remove, bind.
  by rewrite (members_eq _ _ _ Hp), (list_remove_none _ _ _ Hl).
Qed.

(** ** ActionPool.next *)

Lemma has_time_at w a : has_time w a = true <-> exists t, time_at w a t.
Proof.
  unfold has_time, time_at. split.
  - destruct (objects w !! a) as [x|]; [|done].
    destruct (time x) as [t|] eqn:Ht; [|done]. by exists t, x.
  - intros (t & x & -> & ->). done.
Qed.

Lemma filter_m_pure {A} (f : A -> M bool) (g : A -> bool) w l :
  (forall a, a ∈ l -> f a w = (Ret (g a), w)) ->
  filter_m f l w = (Ret (List.filter g l), w).
Proof.
  induction l as [|a l IH]; intros Hf; [done|].
  simpl. unfold bind. rewrite Hf by apply list_elem_of_here.
  rewrite IH by (intros; apply Hf; by apply list_elem_of_further).
  unfold ret. by destruct (g a).
Qed.

Lemma action_lt_at w a b ta tb :
  time_at w a ta -> time_at w b tb ->
  action_lt a b w = (Ret (bool_decide (ta < tb)%Z), w).
Proof.
  intros (xa & Ha & Hta) (xb & Hb & Htb). unfold action_lt, __cmp__, bind.
  rewrite (getattr_eq _ _ _ _ Ha), (getattr_eq _ _ _ _ Hb), Hta, Htb.
  simpl. unfold ret. destruct (Z.compare_spec ta tb);
    case_bool_decide; (done || lia).
Qed.

Lemma time_at_inj w a t t' : time_at w a t -> time_at w a t' -> t = t'.
Proof. intros (x & Hx & Ht) (x' & Hx' & Ht'). congruence. Qed.

(** [min] keeps an element whose time no other element undercuts. *)
Lemma min_from_spec w l best :
  (exists t, time_at w best t) ->
  Forall (fun a => exists t, time_at w a t) l ->
  exists m t,
    min_from best l w = (Ret m, w) /\ m ∈ best :: l /\ time_at w m t /\
    forall m' t', m' ∈ best :: l -> time_at w m' t' -> (t <= t')%Z.
Proof.
  intros Hb Hl. revert best Hb.
  induction Hl as [|e l [te He] _ IH]; intros best [tb Hb].
  - exists best, tb. repeat split; [apply list_elem_of_here|done|].
    intros m' t' Hm' Ht'. apply list_elem_of_singleton in Hm' as ->.
    rewrite (time_at_inj _ _ _ _ Hb Ht'). lia.
  - simpl. unfold bind. rewrite (action_lt_at _ _ _ _ _ He Hb).
    case_bool_decide as Hlt.
    + destruct (IH e) as (m & t & Hm & Hin & Ht & Hmin); [by eauto|].
      exists m, t. repeat split; [done| |done|].
      * apply elem_of_cons in Hin as [->|Hin];
          [apply list_elem_of_further, list_elem_of_here
          |by do 2 apply list_elem_of_further].
      * intros m' t' Hm' Ht'.
        apply elem_of_cons in Hm' as [->|Hm']; [|by eapply Hmin].
        rewrite (time_at_inj _ _ _ _ Ht' Hb).
        assert (t <= te)%Z; [|lia].
        eapply Hmin; [apply list_elem_of_here|done].
    + destruct (IH best) as (m & t & Hm & Hin & Ht & Hmin); [by eauto|].
      exists m, t. repeat split; [done| |done|].
      * apply elem_of_cons in Hin as [->|Hin];
          [apply list_elem_of_here|by do 2 apply list_elem_of_further].
      * intros m' t' Hm' Ht'.
        apply elem_of_cons in Hm' as [->|Hm'];
          [eapply Hmin; [apply list_elem_of_here|done]|].
        apply elem_of_cons in Hm' as [->|Hm'];
          [|eapply Hmin; [by apply list_elem_of_further|done]].
        rewrite (time_at_inj _ _ _ _ Ht' He).
        assert (t <= tb)%Z; [|lia].
        eapply Hmin; [apply list_elem_of_here|done].
Qed.

Lemma next_filter w l :
  Forall (allocated w) l ->
  filter_m (fun a =>
      t <~ getattr a time ;;
      ret (match t with Some _ => true | None => false end)) l w
  = (Ret (List.filter (has_time w) l), w).
Proof.
  intros Hl. apply filter_m_pure. intros a Ha.
  rewrite Forall_forall in Hl. destruct (Hl a Ha) as [x Hx].
  unfold bind. rewrite (getattr_eq _ _ _ _ Hx). unfold has_time.
  by rewrite Hx.
Qed.

(** [next()] on the empty pool returns [None]. *)
Lemma next_empty w self :
  pools w !! self = Some [] -> ActionPool.next self w = (Ret None, w).
Proof.
  intros Hp. unfold ActionPool.next, bind. by rewrite (members_eq _ _ _ Hp).
Qed.

(** [next()] on a pool with a member whose [time] is set returns a member
    whose [time] is set and is the least of those that are. *)
Lemma next_least w self l :
  pools w !! self = Some l ->
  Forall (allocated w) l ->
  (exists a, a ∈ l /\ has_time w a = true) ->
  exists m t,
    ActionPool.next self w = (Ret (Some m), w) /\ m ∈ l /\ time_at w m t /\
    forall m' t', m' ∈ l -> time_at w m' t' -> (t <= t')%Z.
Proof.
  intros Hp Hl (a & Ha & Hta).
  destruct l as [|e l]; [by apply elem_of_nil in Ha|].
  unfold ActionPool.next. unfold bind at 1. rewrite (members_eq _ _ _ Hp).
  cbv beta iota. unfold bind at 1. rewrite (next_filter _ _ Hl).
  unfold bind.
  assert (Hin : a ∈ List.filter (has_time w) (e :: l)).
  { apply list_elem_of_In, filter_In. by rewrite <- list_elem_of_In. }
  destruct (List.filter (has_time w) (e :: l)) as [|b timed] eqn:Hf;
    [by apply elem_of_nil in Hin|].
  assert (Hall : forall c, c ∈ b :: timed ->
            c ∈ e :: l /\ exists t, time_at w c t).
  { intros c Hc. rewrite <- Hf in Hc.
    apply list_elem_of_In, filter_In in Hc as [Hc Ht].
    rewrite <- list_elem_of_In in Hc. split; [done|].
    by apply has_time_at. }
  destruct (min_from_spec w timed b) as (m & t & Hm & Hmin & Ht & Hle).
  { apply Hall, list_elem_of_here. }
  { apply Forall_forall. intros c Hc. by apply Hall, list_elem_of_further. }
  exists m, t. simpl. rewrite Hm. split; [done|].
  split; [by apply Hall|]. split; [done|].
  intros m' t' Hm' Ht'. apply (Hle m' t'); [|done].
  rewrite <- Hf. apply list_elem_of_In, filter_In.
  rewrite <- list_elem_of_In. split; [done|]. apply has_time_at. eauto.
Qed.

Lemma filter_none {A} (g : A -> bool) l :
  Forall (fun a => g a = false) l -> List.filter g l = [].
Proof. induction 1 as [|a l Ha _ IH]; [done|]. simpl. by rewrite Ha. Qed.

(** [next()] raises [ValueError] on a pool that is not empty and has no
    member whose [time] is set. *)
Lemma next_all_unset w self e l :
  pools w !! self = Some (e :: l) ->
  Forall (allocated w) (e :: l) ->
  Forall (fun a => has_time w a = false) (e :: l) ->
  ActionPool.next self w = (Raise ValueError, w).
Proof.
  intros Hp Hl Hn. unfold ActionPool.next. unfold bind at 1.
  rewrite (members_eq _ _ _ Hp). cbv beta iota. unfold bind at 1.
  rewrite (next_filter _ _ Hl). unfold bind.
  by rewrite (filter_none _ _ Hn).
Qed.

(** ** ActionPool.extend *)

Lemma extend_filter w self l input :
  pools w !! self = Some l ->
  Forall (allocated w) l ->
  Forall (allocated w) input ->
  filter_m (fun a =>
      f <~ getattr a _func ;;
      fs <~ ActionPool._funcs self ;;
      ret (negb (bool_decide (f ∈ fs)))) input w
  = (Ret (List.filter (is_new w l) input), w).
Proof.
  intros Hp Hl Hi. apply filter_m_pure. intros a Ha.
  rewrite Forall_forall in Hi. destruct (Hi a Ha) as [x Hx].
  unfold bind at 1. rewrite (getattr_eq _ _ _ _ Hx).
  unfold bind at 1. rewrite (funcs_eq _ _ _ Hp Hl).
  unfold is_new. by rewrite Hx.
Qed.

Lemma set_pool_twice p x : set_pool p (set_pool p x) = set_pool p x.
Proof. done. Qed.

(** The loop that sets [pool] on every action of [l] changes those objects
    in that attribute and nothing else. *)
Lemma for_each_set_pool p l :
  forall w, Forall (allocated w) l ->
  exists w',
    for_each (fun a => update a (set_pool p)) l w = (Ret tt, w') /\
    pools w' = pools w /\ ticks w' = ticks w /\ log w' = log w /\
    fresh w' = fresh w /\
    forall a, objects w' !! a =
      if bool_decide (a ∈ l) then set_pool p <$> objects w !! a
      else objects w !! a.
Proof.
  induction l as [|a0 l IH]; intros w Hl.
  - exists w. by repeat split.
  - apply Forall_cons in Hl as [[x0 Hx0] Hl].
    destruct (IH (with_object a0 (set_pool p x0) w)) as
      (w' & Hrun & Hpools & Hticks & Hlog & Hfresh & Hobj).
    { eapply Forall_impl; [exact Hl|]. intros b [y Hy]. unfold allocated.
      simpl. destruct (decide (a0 = b)) as [->|];
        [rewrite lookup_insert_eq|rewrite lookup_insert_ne]; eauto. }
    exists w'. simpl. unfold bind. rewrite (update_eq _ _ _ _ Hx0), Hrun.
    repeat split; [done..|].
    intros a. rewrite Hobj. simpl.
    destruct (decide (a = a0)) as [->|Hne].
    + rewrite lookup_insert_eq, Hx0.
      rewrite (bool_decide_eq_true_2 (a0 ∈ a0 :: l))
        by apply list_elem_of_here.
      by case_bool_decide.
    + rewrite lookup_insert_ne by done.
      assert (Hiff : a ∈ a0 :: l <-> a ∈ l).
      { rewrite elem_of_cons. tauto. }
      by rewrite (bool_decide_ext _ _ Hiff).
Qed.

(** [extend(actions)] keeps the actions whose [_func] no member of the pool
    has, each tested against the list as it was before the call; it appends
    them in order, sets their [pool], and returns how many they are. *)
Lemma extend_spec w self l input :
  pools w !! self = Some l ->
  Forall (allocated w) l ->
  Forall (allocated w) input ->
  let kept := List.filter (is_new w l) input in
  exists w',
    ActionPool.extend self input w = (Ret (length kept), w') /\
    pools w' !! self = Some (l ++ kept) /\
    (forall q, q <> self -> pools w' !! q = pools w !! q) /\
    ticks w' = ticks w /\ log w' = log w /\ fresh w' = fresh w /\
    forall a, objects w' !! a =
      if bool_decide (a ∈ kept) then set_pool (Some self) <$> objects w !! a
      else objects w !! a.
Proof.
  intros Hp Hl Hi kept.
  destruct (for_each_set_pool (Some self) kept
              (with_members self (l ++ kept) w)) as
    (w' & Hrun & Hpools & Hticks & Hlog & Hfresh & Hobj).
  { apply Forall_forall. intros a Ha. rewrite Forall_forall in Hi.
    apply Hi. apply list_elem_of_In in Ha. apply filter_In in Ha as [Ha _].
    by apply list_elem_of_In. }
  exists w'. unfold ActionPool.extend.
  unfold bind at 1. rewrite (extend_filter _ _ _ _ Hp Hl Hi). fold kept.
  unfold bind at 1. rewrite (members_eq _ _ _ Hp).
  unfold bind at 1. rewrite (set_members_eq _ _ _ _ Hp).
  unfold bind at 1. rewrite Hrun.
  repeat split; [| |done..].
  - rewrite Hpools. simpl. by rewrite lookup_insert_eq.
  - intros q Hq. rewrite Hpools. simpl. by rewrite lookup_insert_ne.
Qed.

(** ** OneTimeAction.__call__, step by step *)

(** An entry of [_cancel] that [get] does not find is passed over. *)
Lemma cancel_item_unresolved w p i :
  ActionPool.get p i w = (Ret None, w) ->
  OneTimeAction.cancel_item p (CIdent i) w = (Ret tt, w).
Proof. intros Hg. unfold OneTimeAction.cancel_item, bind. by rewrite Hg. Qed.

(** An entry that [get] finds is handed to [remove], as an action of the
    list is. *)
Lemma cancel_item_resolved w p i a :
  ActionPool.get p i w = (Ret (Some a), w) ->
  OneTimeAction.cancel_item p (CIdent i) w = ActionPool.remove p a w.
Proof. intros Hg. unfold OneTimeAction.cancel_item, bind. by rewrite Hg. Qed.

Lemma cancel_item_direct w p a :
  OneTimeAction.cancel_item p (CAction a) w = ActionPool.remove p a w.
Proof. done. Qed.

(** A follower that is an action is passed through; one that is a seed is
    built by the constructor of its class, as a new object. *)
Lemma grow_action E w a :
  OneTimeAction.grow E (FAction a) w = (Ret a, w).
Proof. done. Qed.

Lemma grow_seed E w c nt f tg start stp fol can :
  OneTimeAction.grow E (FSeed c nt f tg start stp fol can) w =
  ActionSeed.construct E c nt f tg start stp fol can w.
Proof. done. Qed.

(** The success path on a pool whose times are all different: [o] leaves
    the pool; the entries ["s"] (a tag, found) and [c] (an action) are
    removed and [missing] is passed over, so that [b] alone stays; the two
    seeds are built as objects 6 and 7 and [d] is passed through; [extend]
    inserts 6 and [d] and refuses 7, whose work [upload] is [b]'s; and
    [next()] has then set the time of 6, [d] and 7 from the readings made
    after the insertion. *)
Example onetime_success_chain :
  let w := snd (chain E_busy nothing) in
  let r := OneTimeAction.__call__ E_busy 5 w in
  pools w !! 0 = Some [1; 2; 3; 5] /\
  attrs time w [1; 2; 3; 4; 5] =
    [Some 1060; Some 1130; Some 1050; Some 1330; Some 1055]%Z /\
  fst r = Ret tt /\
  pools (snd r) !! 0 = Some [2; 6; 4] /\
  attrs pool (snd r) [1; 2; 3; 4; 5; 6; 7] =
    [None; Some 0; None; Some 0; None; Some 0; None] /\
  attrs _func (snd r) [6; 7] = ["index"; "upload"] /\
  attrs _followers (snd r) [5] = [[FAction 6; FAction 4; FAction 7]] /\
  attrs time (snd r) [6; 4; 7] = [Some 1100; Some 1390; Some 1140]%Z /\
  fresh (snd r) = 8 /\
  log (snd r) = [Info_perform "setup"; Info_complete "setup"].
Proof. vm_compute. repeat split. Qed.

(** * The claims the code does not meet, at the inputs that show it *)

(** C9.  Three actions built within one second have one [time].  On the pool
    holding [a] and [b] in that order, [remove(b)] returns normally, takes
    [a] out and leaves [b] in, and clears [b.pool] while [a.pool] still names
    the pool; [remove(c)] for the action [c] that is in no pool raises
    nothing and takes [a] out as well. *)
Theorem remove_goes_by_time :
  let w := snd (three_actions E_still nothing) in
  let rb := ActionPool.remove 0 2 w in
  let rc := ActionPool.remove 0 3 w in
  pools w !! 0 = Some [1; 2] /\
  attrs time w [1; 2; 3] = [Some 1060%Z; Some 1060%Z; Some 1060%Z] /\
  fst rb = Ret tt /\
  pools (snd rb) !! 0 = Some [2] /\
  attrs pool (snd rb) [1; 2] = [Some 0; None] /\
  fst rc = Ret tt /\
  pools (snd rc) !! 0 = Some [2].
Proof. vm_compute. repeat split. Qed.

(** C1.  A [OneTimeAction] [b] put in a pool behind an action [a] built
    within the same second, then invoked with work that succeeds: the call
    returns normally, and afterwards the pool holds [b] and no longer holds
    [a], [b.pool] is [None] and [a.pool] still names the pool. *)
Theorem onetime_success_removes_another :
  let w := snd (sync_then_setup E_still nothing) in
  let r := OneTimeAction.__call__ E_still 2 w in
  pools w !! 0 = Some [1; 2] /\
  attrs cls w [1; 2] = [ClsAction; ClsOneTimeAction] /\
  attrs pool w [1; 2] = [Some 0; Some 0] /\
  truthy (work E_still "setup" (S (ticks w))) = true /\
  fst r = Ret tt /\
  pools (snd r) !! 0 = Some [2] /\
  attrs pool (snd r) [1; 2] = [Some 0; None].
Proof. vm_compute. repeat split. Qed.

(** C2.  On a pool whose only member was built with a [nexttime] function
    that returns [None], so that its [time] is [None], [next()] raises
    [ValueError]: the pool is not empty, and [min] is handed the empty
    list. *)
Theorem next_raises_when_no_time_is_set (E : Env) :
  let w := snd (never_scheduled E nothing) in
  pools w !! 0 = Some [1] /\
  attrs time w [1] = [None] /\
  ActionPool.next 0 w = (Raise ValueError, w).
Proof. vm_compute. repeat split. Qed.

(** C3.  [extend([a, b])] on an empty pool, for two actions [a] and [b] on
    one work: it returns 2 and the pool holds both, where [add(a)] followed
    by [add(b)] refuses [b] and the pool holds [a] alone. *)
Theorem extend_keeps_duplicates_of_the_input (E : Env) :
  let w := snd (same_work_twice E nothing) in
  let r := ActionPool.extend 0 [1; 2] w in
  let r' := (ActionPool.add 0 1 ;;; ActionPool.add 0 2) w in
  pools w !! 0 = Some [] /\
  attrs _func w [1; 2] = ["sync"; "sync"] /\
  fst r = Ret 2 /\
  pools (snd r) !! 0 = Some [1; 2] /\
  attrs pool (snd r) [1; 2] = [Some 0; Some 0] /\
  fst r' = Ret false /\
  pools (snd r') !! 0 = Some [1].
Proof. vm_compute. repeat split. Qed.

(** * The theorems with a hypothesis, at one input each *)

(** C7 at the pool of [three_actions]: [add(a)] for the member [a] is
    refused, and [add(c)] puts [c] behind [a] and [b]. *)
Lemma add_spec_witness :
  let w := snd (three_actions E_moving nothing) in
  ActionPool.add 0 1 w = (Ret false, w) /\
  exists w', ActionPool.add 0 3 w = (Ret true, w') /\
             pools w' !! 0 = Some ([1; 2] ++ [3]).
Proof.
  intros w.
  assert (Hp : pools w !! 0 = Some [1; 2]) by (vm_compute; reflexivity).
  assert (Hl : Forall (allocated w) [1; 2]).
  { repeat constructor; vm_compute; eexists; reflexivity. }
  split.
  - edestruct (add_spec w 0 1 [1; 2]) as [Hdup _];
      [exact Hp | vm_compute; reflexivity | exact Hl |].
    apply Hdup. eexists 1, _.
    split; [apply list_elem_of_here|].
    split; [vm_compute; reflexivity | reflexivity].
  - edestruct (add_spec w 0 3 [1; 2]) as [_ Hnew];
      [exact Hp | vm_compute; reflexivity | exact Hl |].
    destruct Hnew as (w' & Hadd & Hmem & _).
    + intros (m & y & Hm & Hy & Hf).
      apply elem_of_cons in Hm as [->|Hm];
        [|apply list_elem_of_singleton in Hm as ->];
        vm_compute in Hy; injection Hy as <-; discriminate Hf.
    + exists w'. split; [exact Hadd | exact Hmem].
Defined.

(** C4 at the actions of [three_actions], the clock having been read three
    times: [sync] succeeds and is due 60 seconds after the reading that
    started the run; [prune] fails and is due 600 seconds after the reading
    that followed it. *)
Lemma action_call_spec_witness :
  let w := snd (three_actions E_moving nothing) in
  (exists w', Action.__call__ E_moving 1 w = (Ret tt, w') /\
              lastexectime <$> objects w' !! 1 = Some (Some 1030%Z) /\
              time <$> objects w' !! 1 = Some (Some 1090%Z)) /\
  (exists w', Action.__call__ E_moving 3 w = (Ret tt, w') /\
              time <$> objects w' !! 3 = Some (Some 1640%Z) /\
              log w' = [Info_perform "prune"; Error_failed "prune"]).
Proof.
  intros w. split.
  - edestruct (action_call_spec E_moving w 1) as (w' & Hc & Hl & Ht & _);
      [vm_compute; reflexivity|].
    exists w'. split; [exact Hc|]. split; [exact Hl | exact Ht].
  - edestruct (action_call_spec E_moving w 3) as (w' & Hc & _ & Ht & Hlog);
      [vm_compute; reflexivity|].
    exists w'. split; [exact Hc|]. split; [exact Ht | exact Hlog].
Defined.

(** C5 at a [StepAction] built with [step=30] on the work [upload], which
    returns [-1]: it is due 30 seconds after the second reading that follows
    the work. *)
Lemma step_call_spec_witness :
  let w := snd (ActionSeed.construct E_moving ClsStepAction (Period 60)
                  "upload" None None (Some 30%Z) [] [] nothing) in
  exists w', StepAction.__call__ E_moving 0 w = (Ret tt, w') /\
             lastexectime <$> objects w' !! 0 = Some (Some 1010%Z) /\
             time <$> objects w' !! 0 = Some (Some 1050%Z) /\
             log w' = [Info_perform "upload"; Info_step_complete "upload"].
Proof.
  intros w.
  edestruct (step_call_spec E_moving w 0) as [(w' & Hc & Hl & Ht & Hlog) _];
    [vm_compute; reflexivity|].
  exists w'. split; [exact Hc|]. split; [exact Hl|].
  split; [exact Ht | exact Hlog].
Defined.

(** C6 at a [OneTimeAction] built with a period of 60 seconds on the work
    [prune], which fails: it is due 60 seconds after the start of the run,
    where [Action.__call__] makes it due 600 seconds after the next
    reading. *)
Lemma onetime_failure_spec_witness :
  let w := snd (ActionSeed.construct E_moving ClsOneTimeAction (Period 60)
                  "prune" None None None [] [] nothing) in
  exists w1 w2,
    OneTimeAction.__call__ E_moving 0 w = (Ret tt, w1) /\
    Action.__call__ E_moving 0 w = (Ret tt, w2) /\
    time <$> objects w1 !! 0 = Some (Some 1070%Z) /\
    time <$> objects w2 !! 0 = Some (Some 1620%Z) /\
    time <$> objects w1 !! 0 <> time <$> objects w2 !! 0.
Proof.
  intros w.
  edestruct (onetime_failure_spec E_moving w 0)
    as (w1 & w2 & H1 & H2 & Ht1 & Ht2 & _ & _ & Hne);
    [vm_compute; reflexivity | vm_compute; reflexivity |].
  exists w1, w2. split; [exact H1|]. split; [exact H2|].
  split; [exact Ht1|]. split; [exact Ht2|].
  apply Hne. vm_compute. discriminate.
Defined.

(** C10 at the pool of [three_actions], whose two members have no tag:
    [get(None)] returns the first of them and [has(None)] is [True]. *)
Lemma get_None_untagged_witness :
  let w := snd (three_actions E_moving nothing) in
  ActionPool.get 0 (ByTag None) w = (Ret (Some 1), w) /\
  ActionPool.has 0 (ByTag None) w = (Ret true, w).
Proof.
  intros w.
  edestruct (get_None_untagged w 0 [1; 2])
    as (_ & (l1 & m & l2 & y & Hl & Hy & Ht & Hl1 & Hget & Hhas) & _).
  - vm_compute; reflexivity.
  - repeat constructor; vm_compute; eexists; reflexivity.
  - eexists 1, _. split; [apply list_elem_of_here|].
    split; [vm_compute; reflexivity | reflexivity].
  - assert (Hm : m = 1).
    { destruct l1 as [|a l1]; [by injection Hl as <-|].
      injection Hl as <- Hl. apply Forall_cons in Hl1 as [(z & Hz & Htz) _].
      vm_compute in Hz. injection Hz as <-. by destruct Htz. }
    subst m. split; [exact Hget | exact Hhas].
Defined.
(** * Further properties of the module *)

(** ** The pool as a collection *)

Lemma add_eq w self a l x :
  pools w !! self = Some l ->
  objects w !! a = Some x ->
  Forall (allocated w) l ->
  ActionPool.add self a w =
    if bool_decide (_func x ∈ attrs _func w l) then (Ret false, w)
    else (Ret true,
          with_object a (set_pool (Some self) x)
            (with_members self (l ++ [a]) w)).
Proof.
  intros Hp Ha Hl.
  unfold ActionPool.add. unfold bind at 1. rewrite (getattr_eq _ _ _ _ Ha).
  unfold bind at 1. rewrite (funcs_eq _ _ _ Hp Hl).
  case_bool_decide; [done|].
  unfold bind at 1. rewrite (members_eq _ _ _ Hp).
  unfold bind at 1. rewrite (set_members_eq _ _ _ _ Hp).
  unfold bind at 1. by rewrite (update_eq _ _ _ x).
Qed.

Lemma first_match_at i w l1 m l2 y :
  unmatched i w l1 ->
  objects w !! m = Some y ->
  ActionPool.matches i y = true ->
  ActionPool.first_match i (l1 ++ m :: l2) w = (Ret (Some m), w).
Proof.
  intros Hl1 Hy Hi. induction Hl1 as [|a l1 (z & Hz & Hzi) _ IH]; simpl;
    unfold bind.
  - by rewrite (deref_eq _ _ _ Hy), Hi.
  - by rewrite (deref_eq _ _ _ Hz), Hzi.
Qed.

Lemma first_match_none i w l :
  unmatched i w l -> ActionPool.first_match i l w = (Ret None, w).
Proof.
  induction 1 as [|a l (z & Hz & Hzi) _ IH]; simpl; unfold bind; [done|].
  by rewrite (deref_eq _ _ _ Hz), Hzi.
Qed.

(** An attribute that the new object shares with the old one reads the
    same after the object is replaced. *)
Lemma attrs_with_object {A} (f : action -> A) w a x x' l :
  objects w !! a = Some x -> f x' = f x ->
  attrs f (with_object a x' w) l = attrs f w l.
Proof.
  intros Ha Hf. unfold attrs, with_object. simpl.
  induction l as [|b l IH]; [done|].
  csimpl. rewrite IH. destruct (decide (a = b)) as [->|Hne].
  - rewrite lookup_insert_eq, Ha. simpl. by rewrite Hf.
  - by rewrite lookup_insert_ne.
Qed.

Lemma attrs_with_members {A} (f : action -> A) w p k l :
  attrs f (with_members p k w) l = attrs f w l.
Proof. done. Qed.

Lemma attrs_app {A} (f : action -> A) w l1 l2 :
  attrs f w (l1 ++ l2) = attrs f w l1 ++ attrs f w l2.
Proof. unfold attrs. apply omap_app. Qed.

Lemma allocated_with_object w a x' b :
  allocated w a -> allocated w b -> allocated (with_object a x' w) b.
Proof.
  intros _ [y Hy]. unfold allocated. simpl.
  destruct (decide (a = b)) as [->|Hne];
    [rewrite lookup_insert_eq|rewrite lookup_insert_ne]; eauto.
Qed.

Lemma unmatched_iff i w l :
  Forall (allocated w) l ->
  (unmatched i w l <->
   ~ exists m y, m ∈ l /\ objects w !! m = Some y /\
                 ActionPool.matches i y = true).
Proof.
  intros Hl. unfold unmatched. rewrite Forall_forall. split.
  - intros Hn (m & y & Hm & Hy & Hi). destruct (Hn m Hm) as (z & Hz & Hzi).
    congruence.
  - intros Hn a Ha. rewrite Forall_forall in Hl. destruct (Hl a Ha) as [z Hz].
    exists z. split; [done|].
    destruct (ActionPool.matches i z) eqn:Hzi; [|done].
    destruct Hn. eauto.
Qed.

(** X1.  [get(func_or_tag)] on a pool one of whose members matches (its
    [_func] for a callable, its [tag] otherwise) returns the first member
    that matches, in the order of insertion, [has] is [True], and the store
    is unchanged. *)
Theorem get_returns_first_match (w : World) (self : addr) (l : list addr)
    (i : Ident) :
  pools w !! self = Some l ->
  Forall (allocated w) l ->
  (exists m y, m ∈ l /\ objects w !! m = Some y /\
               ActionPool.matches i y = true) ->
  exists l1 m l2 y,
    l = l1 ++ m :: l2 /\
    objects w !! m = Some y /\
    ActionPool.matches i y = true /\
    unmatched i w l1 /\
    ActionPool.get self i w = (Ret (Some m), w) /\
    ActionPool.has self i w = (Ret true, w).
Proof.
  intros Hp Hl Hex.
  destruct (first_match_found i w l Hl Hex)
    as (l1 & m & l2 & y & -> & Hy & Hi & Hl1 & Hf).
  exists l1, m, l2, y. repeat split; [done..| |].
  - unfold ActionPool.get, bind. by rewrite (members_eq _ _ _ Hp), Hf.
  - unfold ActionPool.has, ActionPool.get, bind.
    by rewrite (members_eq _ _ _ Hp), Hf.
Qed.

(** X2.  [get(func_or_tag)] on a pool none of whose members matches returns
    [None], [has] is [False], and the store is unchanged; so it is on the
    empty pool. *)
Theorem get_misses (w : World) (self : addr) (l : list addr) (i : Ident) :
  pools w !! self = Some l ->
  Forall (allocated w) l ->
  ~ (exists m y, m ∈ l /\ objects w !! m = Some y /\
                 ActionPool.matches i y = true) ->
  ActionPool.get self i w = (Ret None, w) /\
  ActionPool.has self i w = (Ret false, w).
Proof.
  intros Hp Hl Hn. apply (unmatched_iff i w l Hl) in Hn.
  unfold ActionPool.has, ActionPool.get, bind.
  by rewrite (members_eq _ _ _ Hp), (first_match_none _ _ _ Hn).
Qed.

(** X3.  After [add(action)] has returned [True], [get] with the work of
    [action] returns [action] itself and [has] is [True]. *)
Theorem add_then_get (w : World) (self a : addr) (l : list addr) (x : action) :
  pools w !! self = Some l ->
  objects w !! a = Some x ->
  Forall (allocated w) l ->
  ~ (exists m y, m ∈ l /\ objects w !! m = Some y /\ _func y = _func x) ->
  exists w',
    ActionPool.add self a w = (Ret true, w') /\
    ActionPool.get self (ByFunc (_func x)) w' = (Ret (Some a), w') /\
    ActionPool.has self (ByFunc (_func x)) w' = (Ret true, w').
Proof.
  intros Hp Ha Hl Hn.
  rewrite (add_eq _ _ _ _ _ Hp Ha Hl).
  rewrite bool_decide_eq_false_2 by (by rewrite elem_of_attrs).
  eexists. split; [done|].
  set (w' := with_object a _ _).
  assert (Hp' : pools w' !! self = Some (l ++ [a])).
  { subst w'. simpl. by rewrite lookup_insert_eq. }
  assert (Hf : ActionPool.first_match (ByFunc (_func x)) (l ++ [a]) w'
               = (Ret (Some a), w')).
  { apply first_match_at with (y := set_pool (Some self) x).
    - apply Forall_forall. intros m Hm. rewrite Forall_forall in Hl.
      destruct (Hl m Hm) as [y Hy].
      assert (Hma : m <> a).
      { intros ->. apply Hn. exists a, x. split; [done|]. split; congruence. }
      exists y. subst w'. simpl. rewrite lookup_insert_ne by done.
      split; [done|]. apply bool_decide_eq_false_2. intros Hfy.
      apply Hn. by exists m, y.
    - subst w'. simpl. by rewrite lookup_insert_eq.
    - simpl. by apply bool_decide_eq_true_2. }
  unfold ActionPool.has, ActionPool.get, bind.
  by rewrite (members_eq _ _ _ Hp'), Hf.
Qed.

(** X4.  [add] keeps the works of a pool different from one another: when
    no two members share a [_func] before the call, none do after it,
    whatever it returns. *)
Theorem add_keeps_works_unique (w : World) (self a : addr) (l : list addr)
    (x : action) :
  pools w !! self = Some l ->
  objects w !! a = Some x ->
  Forall (allocated w) l ->
  NoDup (attrs _func w l) ->
  exists b w' l',
    ActionPool.add self a w = (Ret b, w') /\
    pools w' !! self = Some l' /\
    NoDup (attrs _func w' l').
Proof.
  intros Hp Ha Hl Hnd. rewrite (add_eq _ _ _ _ _ Hp Ha Hl).
  case_bool_decide as Hin.
  - by exists false, w, l.
  - eexists true, _, (l ++ [a]). split; [done|].
    split; [simpl; by rewrite lookup_insert_eq|].
    rewrite (attrs_with_object _ _ _ x) by done.
    rewrite attrs_with_members, attrs_app.
    apply NoDup_app. split; [done|]. split.
    + intros f Hf Hf'. unfold attrs in Hf'. simpl in Hf'. rewrite Ha in Hf'.
      simpl in Hf'. apply list_elem_of_singleton in Hf' as ->. done.
    + unfold attrs. simpl. rewrite Ha. simpl. apply NoDup_singleton.
Qed.

(** X5.  [clear()] leaves the pool empty and sets the [pool] of every
    former member to [None]; no other object, no other pool, and neither the
    clock nor the log is touched.  Afterwards [next()] returns [None] and
    [has] is [False] for every argument. *)
Theorem clear_spec (w : World) (self : addr) (l : list addr) :
  pools w !! self = Some l ->
  Forall (allocated w) l ->
  exists w',
    ActionPool.clear self w = (Ret tt, w') /\
    pools w' !! self = Some [] /\
    (forall q, q <> self -> pools w' !! q = pools w !! q) /\
    (forall a, objects w' !! a =
       if bool_decide (a ∈ l) then set_pool None <$> objects w !! a
       else objects w !! a) /\
    ticks w' = ticks w /\ log w' = log w /\ fresh w' = fresh w /\
    ActionPool.next self w' = (Ret None, w') /\
    (forall i, ActionPool.has self i w' = (Ret false, w')).
Proof.
  intros Hp Hl.
  assert (Hrun : exists w',
    ActionPool.clear self w = (Ret tt, w') /\
    pools w' !! self = Some [] /\
    (forall q, q <> self -> pools w' !! q = pools w !! q) /\
    (forall a, objects w' !! a =
       if bool_decide (a ∈ l) then set_pool None <$> objects w !! a
       else objects w !! a) /\
    ticks w' = ticks w /\ log w' = log w /\ fresh w' = fresh w).
  { unfold ActionPool.clear. unfold bind at 1.
    rewrite (members_eq _ _ _ Hp). destruct l as [|e l].
    - exists w. split; [done|]. split; [done|]. split; [done|].
      split; [|done]. intros a.
      by rewrite bool_decide_eq_false_2 by apply not_elem_of_nil.
    - destruct (for_each_set_pool None (e :: l) w Hl)
        as (w1 & Hrun & Hpools & Hticks & Hlog & Hfresh & Hobj).
      unfold bind. rewrite Hrun.
      assert (Hp1 : pools w1 !! self = Some (e :: l)) by by rewrite Hpools.
      rewrite (set_members_eq _ _ _ _ Hp1).
      eexists. split; [done|]. simpl. rewrite Hpools.
      split; [by rewrite lookup_insert_eq|].
      split; [intros q Hq; by rewrite lookup_insert_ne|].
      done. }
  destruct Hrun as (w' & Hc & Hp' & Hq & Hobj & Ht & Hlg & Hf).
  exists w'. split_and!; try done.
  - by apply next_empty.
  - intros i. unfold ActionPool.has, ActionPool.get, bind.
    by rewrite (members_eq _ _ _ Hp').
Qed.

Lemma attrs_pointwise {A} (f : action -> A) w w' l :
  (forall a, f <$> objects w' !! a = f <$> objects w !! a) ->
  attrs f w' l = attrs f w l.
Proof.
  intros H. unfold attrs. induction l as [|b l IH]; [done|].
  csimpl. by rewrite IH, H.
Qed.

Lemma elem_of_kept w l input a :
  a ∈ List.filter (is_new w l) input <->
  a ∈ input /\ exists x, objects w !! a = Some x /\
                         _func x ∉ attrs _func w l.
Proof.
  rewrite list_elem_of_In, filter_In, <- list_elem_of_In. unfold is_new.
  split.
  - intros [Ha Hn]. split; [done|].
    destruct (objects w !! a) as [x|]; [|done]. exists x. split; [done|].
    by apply negb_true_iff, bool_decide_eq_false_1 in Hn.
  - intros [Ha (x & -> & Hn)]. split; [done|].
    by apply negb_true_iff, bool_decide_eq_false_2.
Qed.

Lemma attrs_filter_NoDup {A} (f : action -> A) (g : addr -> bool) w l :
  NoDup (attrs f w l) ->
  NoDup (attrs f w (List.filter g l)) /\
  forall v, v ∈ attrs f w (List.filter g l) -> v ∈ attrs f w l.
Proof.
  unfold attrs. induction l as [|b l IH]; [done|]. csimpl.
  destruct (objects w !! b) as [y|] eqn:Hy; csimpl.
  - intros [Hnin Hnd]%NoDup_cons. destruct (IH Hnd) as [IH1 IH2].
    destruct (g b); csimpl; rewrite ?Hy; csimpl.
    + split.
      * apply NoDup_cons. split; [|done]. intros Hin. by apply Hnin, IH2.
      * intros v [->|Hv]%elem_of_cons; [apply list_elem_of_here|].
        by apply list_elem_of_further, IH2.
    + split; [done|]. intros v Hv. by apply list_elem_of_further, IH2.
  - intros Hnd. destruct (IH Hnd) as [IH1 IH2].
    destruct (g b); csimpl; rewrite ?Hy; csimpl; done.
Qed.

(** X6.  [extend(actions)] tests every action against the works of the
    members the pool had before the call: it inserts, in their order, the
    actions of the input whose work no such member has, sets their [pool],
    returns how many they are, at most the length of the input, and changes
    no other object and no other pool. *)
Theorem extend_appends_new_works (w : World) (self : addr)
    (l input : list addr) :
  pools w !! self = Some l ->
  Forall (allocated w) l ->
  Forall (allocated w) input ->
  exists kept w',
    ActionPool.extend self input w = (Ret (length kept), w') /\
    kept = List.filter (is_new w l) input /\
    (forall a, a ∈ kept <->
       a ∈ input /\ exists x, objects w !! a = Some x /\
                              _func x ∉ attrs _func w l) /\
    length kept <= length input /\
    pools w' !! self = Some (l ++ kept) /\
    (forall q, q <> self -> pools w' !! q = pools w !! q) /\
    (forall a, objects w' !! a =
       if bool_decide (a ∈ kept) then set_pool (Some self) <$> objects w !! a
       else objects w !! a).
Proof.
  intros Hp Hl Hi.
  destruct (extend_spec w self l input Hp Hl Hi)
    as (w' & Hrun & Hmem & Hq & _ & _ & _ & Hobj).
  exists (List.filter (is_new w l) input), w'.
  split; [done|]. split; [done|].
  split; [intros a; apply elem_of_kept|].
  split; [apply filter_length_le|]. done.
Qed.

(** X7.  [extend] keeps the works of a pool different from one another when
    the works of its input are: no two members share a [_func] after the
    call if none did before and no two actions of the input do. *)
Theorem extend_keeps_works_unique (w : World) (self : addr)
    (l input : list addr) :
  pools w !! self = Some l ->
  Forall (allocated w) l ->
  Forall (allocated w) input ->
  NoDup (attrs _func w l) ->
  NoDup (attrs _func w input) ->
  exists n w' l',
    ActionPool.extend self input w = (Ret n, w') /\
    pools w' !! self = Some l' /\
    NoDup (attrs _func w' l').
Proof.
  intros Hp Hl Hi Hnd Hndi.
  destruct (extend_spec w self l input Hp Hl Hi)
    as (w' & Hrun & Hmem & _ & _ & _ & _ & Hobj).
  eexists _, w', _. split; [exact Hrun|]. split; [exact Hmem|].
  rewrite (attrs_pointwise _func w w').
  2:{ intros a. rewrite Hobj. case_bool_decide; [|done].
      by destruct (objects w !! a). }
  rewrite attrs_app.
  destruct (attrs_filter_NoDup _func (is_new w l) w input Hndi) as [Hk Hsub].
  apply NoDup_app. split; [done|]. split; [|done].
  intros f Hf Hf'. apply elem_of_attrs in Hf' as (m & y & Hm & Hy & <-).
  apply elem_of_kept in Hm as [_ (x & Hx & Hn)]. congruence.
Qed.

Lemma world_eta w :
  Build_World (objects w) (pools w) (ticks w) (log w) (fresh w) = w.
Proof. by destruct w. Qed.

(** X8.  [extend([action])] does to the store what [add(action)] does, and
    returns 1 where [add] returns [True] and 0 where it returns [False]. *)
Theorem extend_one_is_add (w : World) (self a : addr) (l : list addr)
    (x : action) :
  pools w !! self = Some l ->
  objects w !! a = Some x ->
  Forall (allocated w) l ->
  exists b w',
    ActionPool.add self a w = (Ret b, w') /\
    ActionPool.extend self [a] w = (Ret (if b then 1 else 0), w').
Proof.
  intros Hp Ha Hl. rewrite (add_eq _ _ _ _ _ Hp Ha Hl).
  unfold ActionPool.extend. unfold bind at 1.
  rewrite (extend_filter w self l [a] Hp Hl)
    by (constructor; [by exists x|constructor]).
  simpl. unfold is_new. rewrite Ha.
  case_bool_decide as Hin; simpl.
  - exists false, w. split; [done|].
    unfold bind. rewrite (members_eq _ _ _ Hp), (set_members_eq _ _ _ _ Hp).
    simpl. unfold ret, with_members. rewrite app_nil_r.
    rewrite (insert_id _ _ _ Hp). by rewrite world_eta.
  - eexists true, _. split; [done|].
    unfold bind. rewrite (members_eq _ _ _ Hp), (set_members_eq _ _ _ _ Hp).
    simpl. unfold bind. by rewrite (update_eq _ _ _ x).
Qed.

(** ** Removal *)

Lemma differs_with_object w a0 x0 x0' a e :
  objects w !! a0 = Some x0 -> time x0' = time x0 ->
  differs w a e -> differs (with_object a0 x0' w) a e.
Proof.
  intros H0 Ht (Hne & xe & xa & te & ta & He & Ha & Hte & Hta & Hd).
  split; [done|]. unfold with_object. simpl.
  destruct (decide (a0 = e)) as [E1|Hn1], (decide (a0 = a)) as [E2|Hn2];
    subst; rewrite ?lookup_insert_eq, ?lookup_insert_ne by done.
  - done.
  - exists x0', xa, te, ta. split_and!; (done || congruence).
  - exists xe, x0', te, ta. split_and!; (done || congruence).
  - exists xe, xa, te, ta. split_and!; done.
Qed.

(** X9.  [remove(action)] for a member that no member before it equals in
    [time]: the action leaves the list, the order of the others is kept,
    its [pool] becomes [None], and nothing else changes. *)
Theorem remove_takes_member_out (w : World) (self a : addr) (x : action)
    (l1 l2 : list addr) :
  pools w !! self = Some (l1 ++ a :: l2) ->
  objects w !! a = Some x ->
  Forall (differs w a) l1 ->
  exists w',
    ActionPool.remove self a w = (Ret tt, w') /\
    pools w' !! self = Some (l1 ++ l2) /\
    objects w' !! a = Some (set_pool None x) /\
    (forall b, b <> a -> objects w' !! b = objects w !! b) /\
    (forall q, q <> self -> pools w' !! q = pools w !! q) /\
    ticks w' = ticks w /\ log w' = log w /\ fresh w' = fresh w.
Proof.
  intros Hp Ha Hl1.
  rewrite (remove_first w self a x l1 a l2 Hp Ha Hl1) by by left.
  eexists. split; [done|]. simpl.
  split; [by rewrite lookup_insert_eq|].
  split; [by rewrite lookup_insert_eq|].
  split; [intros b Hb; by rewrite lookup_insert_ne|].
  split; [intros q Hq; by rewrite lookup_insert_ne|]. done.
Qed.

(** X10.  [remove(action)] for an action that is no member and that no
    member equals in [time] raises [ValueError], and the pool and
    [action.pool] are as they were. *)
Theorem remove_absent_raises (w : World) (self a : addr) (x : action)
    (ta : Z) (l : list addr) :
  pools w !! self = Some l ->
  objects w !! a = Some x ->
  time x = Some ta ->
  a ∉ l ->
  Forall (fun e => exists te, time_at w e te /\ te <> ta) l ->
  ActionPool.remove self a w = (Raise ValueError, w).
Proof.
  intros Hp Ha Hta Hnin Hl. apply (remove_none w self a l Hp).
  apply Forall_forall. intros e He. rewrite Forall_forall in Hl.
  destruct (Hl e He) as (te & (xe & Hxe & Hte) & Hd).
  split; [by intros ->|]. by exists xe, x, te, ta.
Qed.

(** X11.  [add(action)] followed by [remove(action)] gives back the store
    it started from, for an action that is in no pool, whose work is new to
    the pool and that no member equals in [time]. *)
Theorem add_remove_roundtrip (w : World) (self a : addr) (l : list addr)
    (x : action) :
  pools w !! self = Some l ->
  objects w !! a = Some x ->
  pool x = None ->
  Forall (differs w a) l ->
  ~ (exists m y, m ∈ l /\ objects w !! m = Some y /\ _func y = _func x) ->
  (ActionPool.add self a ;;; ActionPool.remove self a) w = (Ret tt, w).
Proof.
  intros Hp Ha Hpool Hd Hn.
  assert (Hl : Forall (allocated w) l).
  { eapply Forall_impl; [exact Hd|].
    intros e (_ & xe & _ & _ & _ & He & _). by exists xe. }
  unfold bind at 1. rewrite (add_eq _ _ _ _ _ Hp Ha Hl).
  rewrite bool_decide_eq_false_2 by (by rewrite elem_of_attrs).
  set (w1 := with_object a _ _).
  rewrite (remove_first w1 self a (set_pool (Some self) x) l a []).
  - f_equal. subst w1. unfold with_object, with_members. simpl.
    rewrite !insert_insert_eq, app_nil_r.
    rewrite (insert_id (pools w) _ _ Hp).
    assert (Hx : set_pool None (set_pool (Some self) x) = x).
    { destruct x. simpl in *. by subst. }
    rewrite Hx, (insert_id (objects w) _ _ Ha). apply world_eta.
  - subst w1. simpl. by rewrite lookup_insert_eq.
  - subst w1. simpl. by rewrite lookup_insert_eq.
  - subst w1. eapply Forall_impl; [exact Hd|]. intros e He.
    by apply (differs_with_object _ a x).
  - by left.
Qed.

(** ** Order: [next] and iteration *)

Lemma time_key_at w a t : time_at w a t -> time_key w a = t.
Proof. intros (x & Hx & Ht). unfold time_key. rewrite Hx. simpl. by rewrite Ht. Qed.

Lemma action_lt_key w a b :
  (exists t, time_at w a t) -> (exists t, time_at w b t) ->
  action_lt a b w = (Ret (time_key w a <? time_key w b)%Z, w).
Proof.
  intros [ta Ha] [tb Hb]. rewrite (action_lt_at _ _ _ _ _ Ha Hb).
  rewrite (time_key_at _ _ _ Ha), (time_key_at _ _ _ Hb).
  case_bool_decide; f_equal; f_equal; symmetry;
    [by apply Z.ltb_lt|by apply Z.ltb_ge; lia].
Qed.

Lemma place_perm k x l : place k x l ≡ₚ x :: l.
Proof.
  induction l as [|y l IH]; [done|]. simpl.
  destruct (k x <? k y)%Z; [done|]. rewrite IH. apply Permutation_swap.
Qed.

Lemma place_all_perm k acc l : place_all k acc l ≡ₚ acc ++ l.
Proof.
  revert acc. induction l as [|x l IH]; intros acc; simpl.
  - by rewrite app_nil_r.
  - rewrite IH, place_perm. simpl. apply Permutation_middle.
Qed.

Lemma insert_sorted_pure w x l :
  (exists t, time_at w x t) -> all_timed w l ->
  insert_sorted x l w = (Ret (place (time_key w) x l), w).
Proof.
  intros Hx Hl. induction Hl as [|y l Hy _ IH]; [done|].
  simpl. unfold bind. rewrite (action_lt_key _ _ _ Hx Hy).
  destruct (time_key w x <? time_key w y)%Z; [done|]. by rewrite IH.
Qed.

Lemma sorted_from_pure w acc l :
  all_timed w acc -> all_timed w l ->
  sorted_from acc l w = (Ret (place_all (time_key w) acc l), w).
Proof.
  intros Hacc Hl. revert acc Hacc.
  induction Hl as [|x l Hx _ IH]; intros acc Hacc; [done|].
  simpl. unfold bind. rewrite (insert_sorted_pure _ _ _ Hx Hacc).
  apply IH. unfold all_timed. rewrite place_perm. by constructor.
Qed.

Lemma place_sorted k x l :
  StronglySorted (fun a b => (k a <= k b)%Z) l ->
  StronglySorted (fun a b => (k a <= k b)%Z) (place k x l).
Proof.
  induction 1 as [|y l Hs IH Hy]; simpl.
  - repeat constructor.
  - destruct (k x <? k y)%Z eqn:Hlt.
    + apply Z.ltb_lt in Hlt. constructor; [by constructor|].
      constructor; [lia|]. eapply Forall_impl; [exact Hy|].
      intros b Hb. simpl in Hb. lia.
    + apply Z.ltb_ge in Hlt. constructor; [done|].
      rewrite place_perm. by constructor.
Qed.

Lemma place_all_sorted k acc l :
  StronglySorted (fun a b => (k a <= k b)%Z) acc ->
  StronglySorted (fun a b => (k a <= k b)%Z) (place_all k acc l).
Proof.
  revert acc. induction l as [|x l IH]; intros acc Hacc; [done|].
  simpl. by apply IH, place_sorted.
Qed.

Lemma filter_key_none (k : addr -> Z) k0 l :
  Forall (fun a => (k0 < k a)%Z) l -> filter (fun a => k a = k0) l = [].
Proof.
  induction 1 as [|a l Ha _ IH]; [done|].
  rewrite filter_cons_False by lia. done.
Qed.

Lemma place_filter k k0 x l :
  StronglySorted (fun a b => (k a <= k b)%Z) l ->
  filter (fun a => k a = k0) (place k x l) =
  filter (fun a => k a = k0) l ++ filter (fun a => k a = k0) [x].
Proof.
  induction 1 as [|y l Hs IH Hy]; [done|]. simpl.
  destruct (k x <? k y)%Z eqn:Hlt.
  - apply Z.ltb_lt in Hlt.
    destruct (decide (k x = k0)) as [Hx|Hx].
    + rewrite (filter_cons_True _ x) by done.
      rewrite (filter_key_none k k0 (y :: l)).
      * by rewrite filter_cons_True, filter_nil by done.
      * constructor; [lia|]. eapply Forall_impl; [exact Hy|].
        intros b Hb. simpl in Hb. lia.
    + rewrite (filter_cons_False _ x) by done.
      rewrite (filter_cons_False _ x []) by done.
      by rewrite filter_nil, app_nil_r.
  - rewrite !(filter_cons _ y), IH. by destruct (decide (k y = k0)).
Qed.

Lemma place_all_filter k k0 acc l :
  StronglySorted (fun a b => (k a <= k b)%Z) acc ->
  filter (fun a => k a = k0) (place_all k acc l) =
  filter (fun a => k a = k0) acc ++ filter (fun a => k a = k0) l.
Proof.
  revert acc. induction l as [|x l IH]; intros acc Hacc; simpl.
  - by rewrite filter_nil, app_nil_r.
  - rewrite IH by by apply place_sorted.
    rewrite place_filter by done. rewrite <- app_assoc. f_equal.
    rewrite (filter_cons _ x l), (filter_cons _ x []), filter_nil.
    by destruct (decide (k x = k0)).
Qed.

Lemma place_all_head w b rest l :
  exists r, place_all (time_key w) (b :: rest) l
            = fold_left (earlier w) l b :: r.
Proof.
  revert b rest. induction l as [|x l IH]; intros b rest; simpl.
  - by exists rest.
  - remember (earlier w b x) as b' eqn:Hb'. unfold earlier in Hb'.
    destruct (time_key w x <? time_key w b)%Z; subst b'; apply IH.
Qed.

Lemma earlier_timed w b e :
  (exists t, time_at w b t) -> (exists t, time_at w e t) ->
  exists t, time_at w (earlier w b e) t.
Proof. intros Hb He. unfold earlier. by destruct (_ <? _)%Z. Qed.

Lemma min_from_pure w best l :
  (exists t, time_at w best t) -> all_timed w l ->
  min_from best l w = (Ret (fold_left (earlier w) l best), w).
Proof.
  intros Hb Hl. revert best Hb.
  induction Hl as [|e l He _ IH]; intros best Hb; [done|].
  simpl. unfold bind. rewrite (action_lt_key _ _ _ He Hb).
  fold (earlier w best e). apply IH. by apply earlier_timed.
Qed.

(** Among the elements it has gone through, the fold keeps the first of
    those that are due earliest. *)
Lemma fold_earlier_first_least w p1 b p2 l :
  Forall (fun e => (time_key w b < time_key w e)%Z) p1 ->
  Forall (fun e => (time_key w b <= time_key w e)%Z) p2 ->
  exists l1 l2,
    p1 ++ b :: p2 ++ l = l1 ++ fold_left (earlier w) l b :: l2 /\
    Forall (fun e => (time_key w (fold_left (earlier w) l b)
                      < time_key w e)%Z) l1 /\
    Forall (fun e => (time_key w (fold_left (earlier w) l b)
                      <= time_key w e)%Z) l2.
Proof.
  revert p1 b p2. induction l as [|x l IH]; intros p1 b p2 H1 H2; simpl.
  - exists p1, p2. by rewrite app_nil_r.
  - remember (earlier w b x) as b' eqn:Hb'. unfold earlier in Hb'.
    destruct (time_key w x <? time_key w b)%Z eqn:Hlt; subst b'.
    + apply Z.ltb_lt in Hlt.
      destruct (IH (p1 ++ b :: p2) x []) as (l1 & l2 & Heq & Hl1 & Hl2).
      * apply Forall_app. split; [|constructor; [lia|]].
        -- eapply Forall_impl; [exact H1|]. intros e He. simpl in He. lia.
        -- eapply Forall_impl; [exact H2|]. intros e He. simpl in He. lia.
      * constructor.
      * exists l1, l2. split; [|done]. rewrite <- Heq.
        by rewrite <- !app_assoc.
    + apply Z.ltb_ge in Hlt.
      destruct (IH p1 b (p2 ++ [x])) as (l1 & l2 & Heq & Hl1 & Hl2);
        [done| |].
      * apply Forall_app. split; [done|]. by constructor.
      * exists l1, l2. split; [|done]. rewrite <- Heq.
        by rewrite <- !app_assoc.
Qed.

Lemma filter_all_timed w l :
  all_timed w l -> List.filter (has_time w) l = l.
Proof.
  induction 1 as [|a l Ha _ IH]; [done|]. simpl.
  by rewrite (proj2 (has_time_at w a) Ha), IH.
Qed.

(** X12.  [next()] on a pool with a member whose [time] is set returns,
    of the members whose [time] is set, the first in the list among those
    due earliest: every such member before it is due strictly later, every
    one after it no earlier; the store is unchanged. *)
Theorem next_returns_first_least (w : World) (self : addr) (l : list addr) :
  pools w !! self = Some l ->
  Forall (allocated w) l ->
  (exists a, a ∈ l /\ has_time w a = true) ->
  exists m l1 l2,
    ActionPool.next self w = (Ret (Some m), w) /\
    List.filter (has_time w) l = l1 ++ m :: l2 /\
    has_time w m = true /\
    Forall (fun e => (time_key w m < time_key w e)%Z) l1 /\
    Forall (fun e => (time_key w m <= time_key w e)%Z) l2.
Proof.
  intros Hp Hl (a & Ha & Hta).
  destruct l as [|e0 l0]; [by apply elem_of_nil in Ha|].
  unfold ActionPool.next. unfold bind at 1. rewrite (members_eq _ _ _ Hp).
  cbv beta iota. unfold bind at 1. rewrite (next_filter _ _ Hl).
  assert (Hin : a ∈ List.filter (has_time w) (e0 :: l0)).
  { apply list_elem_of_In, filter_In. by rewrite <- list_elem_of_In. }
  assert (Hall : all_timed w (List.filter (has_time w) (e0 :: l0))).
  { apply Forall_forall. intros c Hc.
    apply list_elem_of_In, filter_In in Hc as [_ Hc]. by apply has_time_at. }
  destruct (List.filter (has_time w) (e0 :: l0)) as [|b timed];
    [by apply elem_of_nil in Hin|].
  apply Forall_cons in Hall as [Hb Hall].
  unfold bind. simpl. rewrite (min_from_pure _ _ _ Hb Hall).
  destruct (fold_earlier_first_least w [] b [] timed)
    as (l1 & l2 & Heq & Hl1 & Hl2); [constructor..|].
  exists (fold_left (earlier w) timed b), l1, l2.
  split; [done|]. split; [exact Heq|]. split; [|done].
  apply has_time_at.
  assert (Hm : fold_left (earlier w) timed b ∈ b :: timed).
  { simpl in Heq. rewrite Heq. apply elem_of_app. right.
    apply list_elem_of_here. }
  apply elem_of_cons in Hm as [->|Hm]; [done|].
  unfold all_timed in Hall. rewrite Forall_forall in Hall. by apply Hall.
Qed.

(** X13.  Iterating over a pool all of whose members have a [time] yields
    every member once, due dates ascending, members due at one instant in
    the order of their insertion; the store is unchanged. *)
Theorem iter_yields_members_in_order (w : World) (self : addr)
    (l : list addr) :
  pools w !! self = Some l ->
  all_timed w l ->
  exists r,
    ActionPool.__iter__ self w = (Ret r, w) /\
    r ≡ₚ l /\
    StronglySorted (due_before w) r /\
    forall t, filter (fun a => time_key w a = t) r
              = filter (fun a => time_key w a = t) l.
Proof.
  intros Hp Hl. exists (place_all (time_key w) [] l).
  split; [|split; [|split]].
  - unfold ActionPool.__iter__, py_sorted, bind.
    rewrite (members_eq _ _ _ Hp). apply sorted_from_pure; [constructor|done].
  - by rewrite place_all_perm.
  - apply place_all_sorted. constructor.
  - intros t. rewrite place_all_filter by constructor. done.
Qed.

(** X14.  On a pool that is not empty and all of whose members have a
    [time], the first action the iteration yields is the one [next()]
    returns. *)
Theorem iter_starts_with_next (w : World) (self : addr) (e : addr)
    (l : list addr) :
  pools w !! self = Some (e :: l) ->
  all_timed w (e :: l) ->
  exists m r,
    ActionPool.__iter__ self w = (Ret (m :: r), w) /\
    ActionPool.next self w = (Ret (Some m), w).
Proof.
  intros Hp Hl.
  assert (Ha : Forall (allocated w) (e :: l)).
  { eapply Forall_impl; [exact Hl|]. intros a (t & x & Hx & _). by exists x. }
  destruct (place_all_head w e [] l) as [r Hr].
  exists (fold_left (earlier w) l e), r. split.
  - unfold ActionPool.__iter__, py_sorted, bind.
    rewrite (members_eq _ _ _ Hp).
    assert (Hnil : all_timed w []) by constructor.
    rewrite (sorted_from_pure _ _ _ Hnil Hl). simpl. by rewrite Hr.
  - unfold ActionPool.next. unfold bind at 1. rewrite (members_eq _ _ _ Hp).
    cbv beta iota. unfold bind at 1. rewrite (next_filter _ _ Ha).
    rewrite (filter_all_timed _ _ Hl).
    apply Forall_cons in Hl as [He Hl].
    unfold bind. simpl. by rewrite (min_from_pure _ _ _ He Hl).
Qed.

(** ** Invocation and scheduling *)

(** X15.  [time_left()] reads the clock once and returns the seconds from
    that reading to [time], or 0 when [time] is not after it, so never a
    negative number; it raises [TypeError] when [time] is [None]. *)
Theorem time_left_spec (E : Env) (w : World) (self : addr) (x : action) :
  objects w !! self = Some x ->
  Action.time_left E self w =
    (match time x with
     | None => Raise TypeError
     | Some t => Ret (Z.max 0 (t - clk E (ticks w)))
     end, ticked w) /\
  (forall n, fst (Action.time_left E self w) = Ret n -> (0 <= n)%Z).
Proof.
  intros Hx.
  assert (Heq : Action.time_left E self w =
    (match time x with
     | None => Raise TypeError
     | Some t => Ret (Z.max 0 (t - clk E (ticks w)))
     end, ticked w)).
  { unfold Action.time_left, utcnow, bind. simpl. unfold getattr, bind, deref.
    simpl. rewrite Hx. unfold ret, raise, total_seconds, ticked.
    destruct (time x) as [t|]; [|done].
    destruct (clk E (ticks w) <? t)%Z eqn:Hlt.
    - apply Z.ltb_lt in Hlt. do 2 f_equal. lia.
    - apply Z.ltb_ge in Hlt. do 2 f_equal. lia. }
  split; [done|]. intros n. rewrite Heq. simpl.
  destruct (time x); [|done]. intros [= <-]. lia.
Qed.

(** X16.  [delay(period)] followed by [time_left()], for a period that is
    not negative and a clock that does not go back between the two
    readings: the action is due in at most [period] seconds. *)
Theorem delay_then_time_left (E : Env) (w : World) (self : addr)
    (x : action) (period : Z) :
  objects w !! self = Some x ->
  (0 <= period)%Z ->
  (clk E (ticks w) <= clk E (S (ticks w)))%Z ->
  exists n w',
    (Action.delay E self period ;;; Action.time_left E self) w = (Ret n, w') /\
    (0 <= n <= period)%Z.
Proof.
  intros Hx Hp Hclk.
  unfold Action.delay, Action.time_left.
  py_simpl_with Hx. unfold total_seconds.
  destruct (_ <? _)%Z eqn:Hlt; eexists _, _; (split; [reflexivity|]).
  - apply Z.ltb_lt in Hlt. lia.
  - lia.
Qed.

(** X17.  [next()] under the default rule, once the action has run, reads
    no clock: [time] becomes [lastexectime + _period], and calling it again
    changes nothing. *)
Theorem next_is_anchored (E : Env) (w : World) (self : addr) (x : action)
    (t : Z) :
  objects w !! self = Some x ->
  _next x = DefaultNext ->
  lastexectime x = Some t ->
  Action.next E self w =
    (Ret tt, with_object self (set_time (Some (t + _period x)%Z) x) w) /\
  (Action.next E self ;;; Action.next E self) w = Action.next E self w.
Proof.
  intros Hx Hn Ht.
  destruct x as [c tg pl le f per nx tm fo ca st]; simpl in *; subst.
  unfold Action.next, Action._default_next. py_simpl_with Hx. done.
Qed.


(** ** OneTimeAction *)

Lemma differs_same_times w w' a e :
  (forall b x, objects w !! b = Some x ->
     exists x', objects w' !! b = Some x' /\ time x' = time x) ->
  differs w a e -> differs w' a e.
Proof.
  intros H (Hne & xe & xa & te & ta & He & Ha & Hte & Hta & Hd).
  split; [done|].
  destruct (H e xe He) as (xe' & He' & Hte').
  destruct (H a xa Ha) as (xa' & Ha' & Hta').
  exists xe', xa', te, ta. split_and!; (done || congruence).
Qed.

(** X19.  A [OneTimeAction] that is in no pool, invoked with work that
    succeeds: the call does no more than record the run.  [lastexectime] is
    set and the log gains two info events; [time], the followers and every
    pool are as before, and no object is made. *)
Theorem onetime_success_unattached (E : Env) (w : World) (self : addr)
    (x : action) :
  objects w !! self = Some x ->
  pool x = None ->
  truthy (work E (_func x) (S (ticks w))) = true ->
  OneTimeAction.__call__ E self w =
    (Ret tt,
     Build_World
       (<[self := set_lastexectime (Some (clk E (ticks w))) x]> (objects w))
       (pools w) (S (ticks w))
       (log w ++ [Info_perform (_func x); Info_complete (_func x)])
       (fresh w)).
Proof.
  intros Hx Hp Hr.
  destruct x as [c tg pl le f per nx tm fo ca st]; simpl in *; subst.
  unfold OneTimeAction.__call__. py_simpl_with Hx. rewrite Hr.
  py_simpl. by rewrite <- app_assoc.
Qed.

(** X20.  A [OneTimeAction] with nothing to cancel and no follower, in a
    pool where no member before it equals it in [time], invoked with work
    that succeeds: it leaves the pool, its [pool] becomes [None], its [time]
    stays as it was, and the other members keep their order. *)
Theorem onetime_success_leaves_pool (E : Env) (w : World) (self p : addr)
    (x : action) (l1 l2 : list addr) :
  objects w !! self = Some x ->
  pool x = Some p ->
  _cancel x = [] ->
  _followers x = [] ->
  pools w !! p = Some (l1 ++ self :: l2) ->
  Forall (differs w self) l1 ->
  truthy (work E (_func x) (S (ticks w))) = true ->
  OneTimeAction.__call__ E self w =
    (Ret tt,
     Build_World
       (<[self := set_pool None
                    (set_lastexectime (Some (clk E (ticks w))) x)]>
          (objects w))
       (<[p := l1 ++ l2]> (pools w)) (S (ticks w))
       (log w ++ [Info_perform (_func x); Info_complete (_func x)])
       (fresh w)).
Proof.
  intros Hx Hpool Hcan Hfol Hp Hd Hr.
  destruct x as [c tg pl le f per nx tm fo ca st]; simpl in *; subst.
  unfold OneTimeAction.__call__. py_simpl_with Hx. rewrite Hr.
  py_simpl.
  erewrite remove_first with (l1 := l1) (e := self) (l2 := l2);
    [|exact Hp|simpl; apply lookup_insert_eq| |by left].
  - py_simpl. by rewrite <- app_assoc.
  - eapply Forall_impl; [exact Hd|]. intros e He.
    eapply differs_same_times; [|exact He].
    intros b y Hy. simpl. destruct (decide (self = b)) as [<-|Hne].
    + rewrite lookup_insert_eq. eexists. split; [done|].
      rewrite Hx in Hy. by injection Hy as <-.
    + rewrite lookup_insert_ne by done. eauto.
Qed.

(** X21.  A [OneTimeAction] whose first entry to cancel is an action that
    is no member of the pool and that no member equals in [time]: the call
    raises [ValueError] after the action has left the pool; the completion
    is not logged and no follower is built or inserted. *)
Theorem onetime_cancel_absent_raises (E : Env) (w : World) (self p c : addr)
    (x : action) (rest : list CancelItem) (l1 l2 : list addr) :
  objects w !! self = Some x ->
  pool x = Some p ->
  _cancel x = CAction c :: rest ->
  pools w !! p = Some (l1 ++ self :: l2) ->
  Forall (differs w self) l1 ->
  Forall (differs w c) (l1 ++ l2) ->
  truthy (work E (_func x) (S (ticks w))) = true ->
  OneTimeAction.__call__ E self w =
    (Raise ValueError,
     Build_World
       (<[self := set_pool None
                    (set_lastexectime (Some (clk E (ticks w))) x)]>
          (objects w))
       (<[p := l1 ++ l2]> (pools w)) (S (ticks w))
       (log w ++ [Info_perform (_func x)])
       (fresh w)).
Proof.
  intros Hx Hpool Hcan Hp Hd Hdc Hr.
  destruct x as [cl tg pl le f per nx tm fo ca st]; simpl in *; subst.
  unfold OneTimeAction.__call__. py_simpl_with Hx. rewrite Hr.
  py_simpl.
  assert (Hkeep : forall b y, objects w !! b = Some y ->
    exists y', <[self := set_lastexectime (Some (clk E (ticks w)))
                  (Build_action cl tg (Some p) le f per nx tm fo
                     (CAction c :: rest) st)]> (objects w) !! b = Some y' /\
               time y' = time y).
  { intros b y Hy. destruct (decide (self = b)) as [<-|Hne].
    - rewrite lookup_insert_eq. eexists. split; [done|].
      rewrite Hx in Hy. by injection Hy as <-.
    - rewrite lookup_insert_ne by done. eauto. }
  erewrite remove_first with (l1 := l1) (e := self) (l2 := l2);
    [|exact Hp|simpl; apply lookup_insert_eq| |by left].
  2:{ eapply Forall_impl; [exact Hd|]. intros e He.
      eapply differs_same_times; [|exact He]. exact Hkeep. }
  py_simpl.
  erewrite remove_none with (l := l1 ++ l2);
    [|simpl; apply lookup_insert_eq|].
  - unfold with_object, with_members. simpl. by rewrite insert_insert_eq.
  - eapply Forall_impl; [exact Hdc|]. intros e He.
    eapply differs_same_times; [|exact He].
    intros b y Hy. simpl. destruct (decide (self = b)) as [<-|Hne].
    + rewrite lookup_insert_eq. eexists. split; [done|].
      rewrite Hx in Hy. by injection Hy as <-.
    + rewrite lookup_insert_ne by done. eauto.
Qed.

(** X22.  [grow()] called twice on one seed builds two objects, at two
    addresses, from the same arguments: they agree in every attribute the
    constructor takes from them and may differ in [time] alone, and building
    the second leaves the first as it was. *)
Theorem grow_twice_gives_two_objects (E : Env) (w : World) (c : Class)
    (nt : NextTime) (f : Func) (tg : option string) (start stp : option Z)
    (fol : list Follower) (can : list CancelItem) :
  exists a1 a2 w1 w2 t1 t2,
    ActionSeed.grow E c nt f tg start stp fol can w = (Ret a1, w1) /\
    ActionSeed.grow E c nt f tg start stp fol can w1 = (Ret a2, w2) /\
    a1 <> a2 /\
    objects w2 !! a1 = Some (init_fields c nt f tg stp fol can t1) /\
    objects w2 !! a2 = Some (init_fields c nt f tg stp fol can t2) /\
    objects w2 !! a1 = objects w1 !! a1.
Proof.
  unfold ActionSeed.grow. rewrite construct_eq.
  eexists _, _, _, _, _, _. split; [reflexivity|].
  rewrite construct_eq. split; [reflexivity|]. simpl.
  split; [lia|].
  rewrite lookup_insert_eq, lookup_insert_ne, lookup_insert_eq by lia.
  done.
Qed.

(** ** Edges *)

(** X23.  A new pool is empty: [next()] returns [None], iterating yields
    nothing, and [get] finds nothing, whatever it is asked for. *)
Theorem new_pool_is_empty (w : World) (i : Ident) :
  exists w',
    ActionPool.__init__ w = (Ret (fresh w), w') /\
    ActionPool.next (fresh w) w' = (Ret None, w') /\
    ActionPool.__iter__ (fresh w) w' = (Ret [], w') /\
    ActionPool.get (fresh w) i w' = (Ret None, w') /\
    ActionPool.has (fresh w) i w' = (Ret false, w').
Proof.
  eexists. split; [reflexivity|].
  unfold ActionPool.next, ActionPool.__iter__, ActionPool.has,
    ActionPool.get, members, bind. simpl.
  rewrite lookup_insert_eq. done.
Qed.

(** X24.  [remove(action)] on a pool whose first member has no [time] (its
    [nexttime] function returned [None]), for another action that has one:
    comparing the two raises [TypeError], and the store is unchanged. *)
Theorem remove_unscheduled_raises (w : World) (self a e : addr)
    (x xe : action) (ta : Z) (l : list addr) :
  pools w !! self = Some (e :: l) ->
  objects w !! e = Some xe ->
  objects w !! a = Some x ->
  e <> a ->
  time xe = None ->
  time x = Some ta ->
  ActionPool.remove self a w = (Raise TypeError, w).
Proof.
  intros Hp He Ha Hne Hte Hta.
  unfold ActionPool.remove. unfold bind at 1. rewrite (members_eq _ _ _ Hp).
  simpl. unfold action_eq. destruct (decide (e = a)); [done|].
  unfold __cmp__, bind.
  by rewrite (getattr_eq _ _ _ _ He), (getattr_eq _ _ _ _ Ha), Hte, Hta.
Qed.

Lemma attrs_agree {A} (f : action -> A) w w' l :
  (forall a, a ∈ l -> f <$> objects w' !! a = f <$> objects w !! a) ->
  attrs f w' l = attrs f w l.
Proof.
  unfold attrs. induction l as [|b l IH]; intros H; [done|].
  csimpl. rewrite IH by (intros; apply H; by apply list_elem_of_further).
  by rewrite H by apply list_elem_of_here.
Qed.

Lemma insert_twice_two {A} (m : gmap nat A) i j a b c d :
  i <> j ->
  <[i := a]> (<[j := b]> (<[i := c]> (<[j := d]> m)))
  = <[i := a]> (<[j := b]> m).
Proof.
  intros Hij. rewrite (insert_insert_ne (<[j := d]> m) j i) by done.
  by rewrite !insert_insert_eq.
Qed.

(** X25.  A [OneTimeAction] with nothing to cancel and one follower, a seed
    with a period of [q] seconds on a work no other member has, in a pool
    where no member before it equals it in [time], invoked with work that
    succeeds: it leaves the pool; the seed is built once, as a new object
    that comes last in the pool with its [pool] set; the follower list holds
    that object in place of the seed; and the object is due [q] seconds
    after the reading [next()] makes once it is inserted. *)
Theorem onetime_success_grows_follower (E : Env) (w : World) (self p : addr)
    (x : action) (l1 l2 : list addr) (c : Class) (q : Z) (g : Func)
    (tg : option string) (stp : option Z) (fol : list Follower)
    (can : list CancelItem) :
  objects w !! self = Some x ->
  pool x = Some p ->
  _cancel x = [] ->
  _followers x = [FSeed c (Period q) g tg None stp fol can] ->
  pools w !! p = Some (l1 ++ self :: l2) ->
  Forall (differs w self) l1 ->
  Forall (allocated w) (l1 ++ l2) ->
  objects w !! fresh w = None ->
  g ∉ attrs _func w (l1 ++ l2) ->
  truthy (work E (_func x) (S (ticks w))) = true ->
  OneTimeAction.__call__ E self w =
    (Ret tt,
     Build_World
       (<[fresh w :=
            set_pool (Some p)
              (init_fields c (Period q) g tg stp fol can
                 (Some (clk E (S (S (ticks w))) + q)%Z))]>
          (<[self :=
               set_followers [FAction (fresh w)]
                 (set_pool None
                    (set_lastexectime (Some (clk E (ticks w))) x))]>
             (objects w)))
       (<[p := (l1 ++ l2) ++ [fresh w]]> (pools w))
       (S (S (S (ticks w))))
       (log w ++ [Info_perform (_func x); Info_complete (_func x)])
       (S (fresh w))).
Proof.
  intros Hx Hpool Hcan Hfol Hp Hd Hl Hfresh Hg Hr.
  assert (Hsf : self <> fresh w) by (intros ->; congruence).
  assert (Hnin : forall a, a ∈ l1 ++ l2 -> a <> fresh w).
  { intros a Ha ->. rewrite Forall_forall in Hl.
    destruct (Hl _ Ha) as [y Hy]. congruence. }
  destruct x as [cl tg0 pl le f per nx tm fo ca st]; simpl in *; subst.
  unfold OneTimeAction.__call__. py_simpl_with Hx. rewrite Hr.
  py_simpl.
  erewrite remove_first with (l1 := l1) (e := self) (l2 := l2);
    [|exact Hp|simpl; apply lookup_insert_eq| |by left].
  2:{ eapply Forall_impl; [exact Hd|]. intros e He.
      eapply differs_same_times; [|exact He].
      intros b y Hy. simpl. destruct (decide (self = b)) as [<-|Hne].
      - rewrite lookup_insert_eq. eexists. split; [done|].
        rewrite Hx in Hy. by injection Hy as <-.
      - rewrite lookup_insert_ne by done. eauto. }
  py_simpl. unfold ActionSeed.grow. rewrite construct_eq. py_simpl.
  rewrite lookup_insert_ne by done. py_simpl.
  unfold ActionPool.extend. unfold bind at 1.
  erewrite extend_filter with (l := l1 ++ l2).
  - simpl. unfold is_new. simpl. rewrite lookup_insert_ne by done.
    rewrite lookup_insert_eq. simpl.
    erewrite (attrs_agree _func w).
    + rewrite bool_decide_eq_false_2 by done. simpl.
      unfold members, set_members, bind. simpl. rewrite lookup_insert_eq.
      unfold Action.next, Action._default_next.
      assert (Hfs : fresh w <> self) by done.
      repeat (first
        [ progress py_simpl
        | progress unfold Action.next, Action._default_next
        | rewrite (lookup_insert_ne _ (fresh w) self) by done
        | rewrite (lookup_insert_ne _ self (fresh w)) by done
        | rewrite insert_twice_two by done ]).
      rewrite <- (app_assoc (log w)). reflexivity.
    + intros a Ha. simpl.
      assert (Hfa : fresh w <> a) by (intros <-; by apply (Hnin _ Ha)).
      destruct (decide (self = a)) as [<-|Hne].
      * by rewrite lookup_insert_eq, Hx.
      * by rewrite !lookup_insert_ne.
  - simpl. apply lookup_insert_eq.
  - eapply Forall_impl; [exact Hl|]. intros a [y Hy]. unfold allocated.
    simpl. destruct (decide (self = a)) as [<-|Hne].
    + rewrite lookup_insert_eq. eauto.
    + rewrite lookup_insert_ne by done.
      destruct (decide (fresh w = a)) as [<-|Hne'];
        [rewrite lookup_insert_eq|rewrite !lookup_insert_ne by done]; eauto.
  - repeat constructor. unfold allocated. simpl.
    rewrite lookup_insert_ne by done. rewrite lookup_insert_eq. eauto.
Qed.

(** ** Two more edges *)


(** X27.  [add] never takes an action out of a pool it is in: adding to a
    second pool an action that is a member of a first one leaves it in the
    list of the first, puts it in the list of the second, and makes [pool]
    name the second. *)
Theorem add_to_second_pool (w : World) (p1 p2 a : addr) (l1 l2 : list addr)
    (x : action) :
  pools w !! p1 = Some l1 ->
  pools w !! p2 = Some l2 ->
  p1 <> p2 ->
  a ∈ l1 ->
  objects w !! a = Some x ->
  Forall (allocated w) l2 ->
  ~ (exists m y, m ∈ l2 /\ objects w !! m = Some y /\ _func y = _func x) ->
  exists w',
    ActionPool.add p2 a w = (Ret true, w') /\
    pools w' !! p1 = Some l1 /\
    pools w' !! p2 = Some (l2 ++ [a]) /\
    pool <$> objects w' !! a = Some (Some p2).
Proof.
  intros Hp1 Hp2 Hne Hin Ha Hl Hn.
  rewrite (add_eq _ _ _ _ _ Hp2 Ha Hl).
  rewrite bool_decide_eq_false_2 by (by rewrite elem_of_attrs).
  eexists. split; [done|]. simpl.
  rewrite lookup_insert_ne by done. rewrite !lookup_insert_eq. done.
Qed.

(** * The further theorems with a hypothesis, at one input each *)

(** The pool of [three_actions] holds [sync] and [upload], objects 1 and 2,
    due at 1060 and 1070; [prune], object 3, is due at 1080 and is in no
    pool. *)
Lemma get_returns_first_match_witness :
  let w := snd (three_actions E_moving nothing) in
  exists m, ActionPool.get 0 (ByFunc "upload") w = (Ret (Some m), w) /\
            ActionPool.has 0 (ByFunc "upload") w = (Ret true, w).
Proof.
  intros w.
  edestruct (get_returns_first_match w 0 [1; 2] (ByFunc "upload"))
    as (l1 & m & l2 & y & _ & _ & _ & _ & Hget & Hhas).
  - by_computation.
  - solve_allocated.
  - eexists 2, _.
    split; [apply list_elem_of_further, list_elem_of_here|].
    split; by_computation.
  - exists m. by split.
Defined.

Lemma get_misses_witness :
  let w := snd (three_actions E_moving nothing) in
  ActionPool.get 0 (ByFunc "prune") w = (Ret None, w) /\
  ActionPool.has 0 (ByFunc "prune") w = (Ret false, w).
Proof.
  intros w. apply (get_misses w 0 [1; 2] (ByFunc "prune")).
  - by_computation.
  - solve_allocated.
  - refute_member.
Defined.

Lemma add_then_get_witness :
  let w := snd (three_actions E_moving nothing) in
  exists w', ActionPool.add 0 3 w = (Ret true, w') /\
             ActionPool.get 0 (ByFunc "prune") w' = (Ret (Some 3), w').
Proof.
  intros w.
  edestruct (add_then_get w 0 3 [1; 2]) as (w' & Hadd & Hget & _).
  - by_computation.
  - by_computation.
  - solve_allocated.
  - refute_member.
  - exists w'. split; [exact Hadd | exact Hget].
Defined.

Lemma add_keeps_works_unique_witness :
  let w := snd (three_actions E_moving nothing) in
  exists b w' l', ActionPool.add 0 3 w = (Ret b, w') /\
                  pools w' !! 0 = Some l' /\ NoDup (attrs _func w' l').
Proof.
  intros w. eapply (add_keeps_works_unique w 0 3 [1; 2]).
  - by_computation.
  - by_computation.
  - solve_allocated.
  - apply (bool_decide_unpack _). by_computation.
Defined.

Lemma clear_spec_witness :
  let w := snd (three_actions E_moving nothing) in
  exists w', ActionPool.clear 0 w = (Ret tt, w') /\
             pools w' !! 0 = Some [] /\
             pool <$> objects w' !! 1 = Some None.
Proof.
  intros w.
  edestruct (clear_spec w 0 [1; 2]) as (w' & Hc & Hp & _ & Hobj & _).
  - by_computation.
  - solve_allocated.
  - exists w'. split; [exact Hc|]. split; [exact Hp|].
    rewrite (Hobj 1). by_computation.
Defined.

Lemma extend_appends_new_works_witness :
  let w := snd (three_actions E_moving nothing) in
  exists w', ActionPool.extend 0 [3; 1] w = (Ret 1, w') /\
             pools w' !! 0 = Some [1; 2; 3].
Proof.
  intros w.
  edestruct (extend_appends_new_works w 0 [1; 2] [3; 1])
    as (kept & w' & Hrun & Hk & _ & _ & Hp & _).
  - by_computation.
  - solve_allocated.
  - solve_allocated.
  - assert (Hkept : kept = [3]) by (rewrite Hk; by_computation).
    subst kept. exists w'. split; [exact Hrun | exact Hp].
Defined.

Lemma extend_keeps_works_unique_witness :
  let w := snd (three_actions E_moving nothing) in
  exists n w' l', ActionPool.extend 0 [3; 1] w = (Ret n, w') /\
                  pools w' !! 0 = Some l' /\ NoDup (attrs _func w' l').
Proof.
  intros w. eapply (extend_keeps_works_unique w 0 [1; 2] [3; 1]).
  - by_computation.
  - solve_allocated.
  - solve_allocated.
  - apply (bool_decide_unpack _). by_computation.
  - apply (bool_decide_unpack _). by_computation.
Defined.

Lemma extend_one_is_add_witness :
  let w := snd (three_actions E_moving nothing) in
  exists b w', ActionPool.add 0 3 w = (Ret b, w') /\
               ActionPool.extend 0 [3] w = (Ret (if b then 1 else 0), w').
Proof.
  intros w. eapply (extend_one_is_add w 0 3 [1; 2]).
  - by_computation.
  - by_computation.
  - solve_allocated.
Defined.

Lemma remove_takes_member_out_witness :
  let w := snd (three_actions E_moving nothing) in
  exists w', ActionPool.remove 0 2 w = (Ret tt, w') /\
             pools w' !! 0 = Some [1] /\
             pool <$> objects w' !! 2 = Some None.
Proof.
  intros w.
  edestruct remove_takes_member_out
    with (w := w) (self := 0) (a := 2) (l1 := [1]) (l2 := @nil nat)
    as (w' & Hr & Hp & Hx & _).
  - by_computation.
  - by_computation.
  - solve_differs.
  - exists w'. split; [exact Hr|]. split; [exact Hp|]. by rewrite Hx.
Defined.

Lemma remove_absent_raises_witness :
  let w := snd (three_actions E_moving nothing) in
  ActionPool.remove 0 3 w = (Raise ValueError, w).
Proof.
  intros w.
  eapply remove_absent_raises with (ta := 1080%Z) (l := [1; 2]).
  - by_computation.
  - by_computation.
  - by_computation.
  - rewrite !elem_of_cons, elem_of_nil. lia.
  - repeat (constructor;
      [eexists; split; [eexists; split; by_computation|lia]|]).
    constructor.
Defined.

Lemma add_remove_roundtrip_witness :
  let w := snd (three_actions E_moving nothing) in
  (ActionPool.add 0 3 ;;; ActionPool.remove 0 3) w = (Ret tt, w).
Proof.
  intros w. eapply (add_remove_roundtrip w 0 3 [1; 2]).
  - by_computation.
  - by_computation.
  - by_computation.
  - solve_differs.
  - refute_member.
Defined.

Lemma next_returns_first_least_witness :
  let w := snd (three_actions E_moving nothing) in
  exists m, ActionPool.next 0 w = (Ret (Some m), w) /\
            has_time w m = true.
Proof.
  intros w.
  edestruct (next_returns_first_least w 0 [1; 2])
    as (m & l1 & l2 & Hn & _ & Ht & _).
  - by_computation.
  - solve_allocated.
  - exists 1. split; [apply list_elem_of_here | by_computation].
  - exists m. by split.
Defined.

Lemma iter_yields_members_in_order_witness :
  let w := snd (three_actions E_moving nothing) in
  exists r, ActionPool.__iter__ 0 w = (Ret r, w) /\ r ≡ₚ [1; 2] /\
            StronglySorted (due_before w) r.
Proof.
  intros w.
  edestruct (iter_yields_members_in_order w 0 [1; 2])
    as (r & Hr & Hperm & Hs & _).
  - by_computation.
  - solve_timed.
  - exists r. by split_and!.
Defined.

Lemma iter_starts_with_next_witness :
  let w := snd (three_actions E_moving nothing) in
  exists m r, ActionPool.__iter__ 0 w = (Ret (m :: r), w) /\
              ActionPool.next 0 w = (Ret (Some m), w).
Proof.
  intros w. eapply (iter_starts_with_next w 0 1 [2]).
  - by_computation.
  - solve_timed.
Defined.

(** [sync], due at 1060, asked at the reading 1030. *)
Lemma time_left_spec_witness :
  let w := snd (three_actions E_moving nothing) in
  fst (Action.time_left E_moving 1 w) = Ret 30%Z.
Proof.
  intros w.
  edestruct (time_left_spec E_moving w 1) as [Heq _]; [by_computation|].
  rewrite Heq. by_computation.
Defined.

Lemma delay_then_time_left_witness :
  let w := snd (three_actions E_moving nothing) in
  exists n w',
    (Action.delay E_moving 1 600 ;;; Action.time_left E_moving 1) w
      = (Ret n, w') /\ (0 <= n <= 600)%Z.
Proof.
  intros w. eapply (delay_then_time_left E_moving w 1).
  - by_computation.
  - lia.
  - vm_compute. discriminate.
Defined.

(** [sync] once it has run: [lastexectime] is 1030. *)
Lemma next_is_anchored_witness :
  let w := snd (Action.__call__ E_moving 1
                  (snd (three_actions E_moving nothing))) in
  (Action.next E_moving 1 ;;; Action.next E_moving 1) w
    = Action.next E_moving 1 w.
Proof.
  intros w.
  edestruct next_is_anchored
    with (E := E_moving) (w := w) (self := 1) (t := 1030%Z) as [_ Hidem].
  - by_computation.
  - by_computation.
  - by_computation.
  - exact Hidem.
Defined.


Lemma onetime_success_unattached_witness :
  let w := snd (ActionSeed.construct E_busy ClsOneTimeAction (Period 60)
                  "setup" None None None [] [] nothing) in
  fst (OneTimeAction.__call__ E_busy 0 w) = Ret tt /\
  time <$> objects (snd (OneTimeAction.__call__ E_busy 0 w)) !! 0
    = time <$> objects w !! 0.
Proof.
  intros w. erewrite onetime_success_unattached; cycle 1.
  - by_computation.
  - by_computation.
  - by_computation.
  - split; by_computation.
Defined.

(** [setup], due at 1070, behind [sync], due at 1060. *)
Lemma onetime_success_leaves_pool_witness :
  let w := snd (sync_then_setup E_busy nothing) in
  fst (OneTimeAction.__call__ E_busy 2 w) = Ret tt /\
  pools (snd (OneTimeAction.__call__ E_busy 2 w)) !! 0 = Some [1].
Proof.
  intros w.
  erewrite onetime_success_leaves_pool
    with (p := 0) (l1 := [1]) (l2 := @nil nat); cycle 1.
  - by_computation.
  - by_computation.
  - by_computation.
  - by_computation.
  - by_computation.
  - solve_differs.
  - by_computation.
  - split; by_computation.
Defined.

Lemma onetime_cancel_absent_raises_witness :
  let w := snd (cancel_stranger E_busy nothing) in
  fst (OneTimeAction.__call__ E_busy 2 w) = Raise ValueError /\
  pools (snd (OneTimeAction.__call__ E_busy 2 w)) !! 0 = Some [].
Proof.
  intros w.
  erewrite onetime_cancel_absent_raises
    with (p := 0) (c := 1) (rest := @nil CancelItem) (l1 := @nil nat)
         (l2 := @nil nat); cycle 1.
  - by_computation.
  - by_computation.
  - by_computation.
  - by_computation.
  - constructor.
  - constructor.
  - by_computation.
  - split; by_computation.
Defined.

Lemma remove_unscheduled_raises_witness :
  let w := snd (idle_and_sync E_moving nothing) in
  ActionPool.remove 0 2 w = (Raise TypeError, w).
Proof.
  intros w.
  eapply remove_unscheduled_raises
    with (e := 1) (ta := 1060%Z) (l := @nil nat).
  - by_computation.
  - by_computation.
  - by_computation.
  - lia.
  - by_computation.
  - by_computation.
Defined.

(** [setup] with the seed of [index], behind [sync]: the seed is built as
    object 3 and is due 30 seconds after the fourth reading, 1030. *)
Lemma onetime_success_grows_follower_witness :
  let w := snd (setup_with_seed E_busy nothing) in
  fst (OneTimeAction.__call__ E_busy 2 w) = Ret tt /\
  pools (snd (OneTimeAction.__call__ E_busy 2 w)) !! 0 = Some [1; 3] /\
  time <$> objects (snd (OneTimeAction.__call__ E_busy 2 w)) !! 3
    = Some (Some 1070%Z).
Proof.
  intros w.
  erewrite onetime_success_grows_follower
    with (p := 0) (l1 := [1]) (l2 := @nil nat); cycle 1.
  - by_computation.
  - by_computation.
  - by_computation.
  - by_computation.
  - by_computation.
  - solve_differs.
  - solve_allocated.
  - by_computation.
  - apply (bool_decide_unpack _). by_computation.
  - by_computation.
  - split_and!; by_computation.
Defined.


Lemma add_to_second_pool_witness :
  let w := snd (two_pools E_moving nothing) in
  exists w', ActionPool.add 1 2 w = (Ret true, w') /\
             pools w' !! 0 = Some [2] /\ pools w' !! 1 = Some [2].
Proof.
  intros w.
  edestruct add_to_second_pool
    with (w := w) (p1 := 0) (p2 := 1) (a := 2) (l1 := [2]) (l2 := @nil nat)
    as (w' & Hadd & H1 & H2 & _).
  - by_computation.
  - by_computation.
  - lia.
  - apply list_elem_of_here.
  - by_computation.
  - constructor.
  - refute_member.
  - exists w'. split_and!; [exact Hadd|exact H1|exact H2].
Defined.
